(** * Hours-of-Service schedule simulator of [route_api/hos_calculator.py]

    A shallow embedding of [HOSCalculator]: the route-geometry projector
    [find_location_after_distance], the schedule simulator
    [calculate_route_schedule] and the log builder [generate_eld_logs].

    Python floats are modelled by exact rationals ([Q]); equality of
    numeric results is therefore stated with [==] and rounding is out of
    the model.  The geodesic distance of [geopy] is a parameter of the
    development. *)

From Stdlib Require Import String DecimalString.
From Stdlib Require Import QArith Qminmax Qround ZArith List Bool Lia Lqa.
From Stdlib Require Import Sorted Permutation.
Import ListNotations.

Open Scope Q_scope.

(** ** Numbers and comparisons *)

(** [a < b] as a boolean, the test of [while x > 0] and [if x > 0]. *)
Definition Qlt_bool (a b : Q) : bool := negb (Qle_bool b a).

(** Python's [sum(xs)]: a left fold that starts from [0]. *)
Definition sum_Q (xs : list Q) : Q := fold_left Qplus xs 0.

(** A coordinate pair is a Python list of numbers, [[lon, lat]]. *)
Definition point := list Q.

(** ** The constants set by [HOSCalculator.__init__] *)

Definition max_daily_driving_hours : Q := 11.
Definition max_daily_duty_hours : Q := 14.
Definition min_rest_period_hours : Q := 10.
Definition required_break_after_hours : Q := 8.
Definition required_break_duration_hours : Q := 1 # 2.
Definition max_cycle_hours : Q := 70.
Definition cycle_days : nat := 8.
Definition fuel_distance_miles : Q := 1000.
Definition fuel_duration_hours : Q := 1.
Definition pickup_duration_hours : Q := 1.
Definition dropoff_duration_hours : Q := 1.

(** ** Data model *)

Inductive activity : Type :=
  | DRIVING | BREAK | REST | RESTART | PICKUP | DROPOFF | FUEL.

Definition activity_eqb (a b : activity) : bool :=
  match a, b with
  | DRIVING, DRIVING | BREAK, BREAK | REST, REST | RESTART, RESTART
  | PICKUP, PICKUP | DROPOFF, DROPOFF | FUEL, FUEL => true
  | _, _ => false
  end.

(** One entry of the [schedule] list.  The three optional keys are present
    only on the events that set them. *)
Record event : Type := mkEvent {
  activity_type : activity;
  location_index : Z;
  duration_hours : Q;
  day : Z;
  start_duty_hours : Q;
  end_duty_hours : Q;
  coord : point;
  distance_miles : option Q;
  cycle_hours_remaining : option Q;
  restart_type : option string
}.

(** An input leg ([route_segments[i]]).  [coordinates] is
    [segment.get("geometry", {}).get("coordinates", [])]: a leg without
    geometry has the empty list. *)
Module Segment.
Record t : Type := mk {
  distance_miles : Q;
  duration_hours : Q;
  coordinates : list point
}.
End Segment.

(** ** The bounded deque [daily_duty_hours] *)

(** [d[0] += x].  The deque always has [cycle_days] entries, so the
    [IndexError] of an empty deque does not arise. *)
Definition deque_add_head (d : list Q) (x : Q) : list Q :=
  match d with
  | [] => []
  | a :: r => (a + x) :: r
  end.

(** [d.append(x)] on [deque(..., maxlen=maxlen)]: the new item goes to the
    right end and, when the deque is full, the item at the left end
    (index 0) is discarded. *)
Definition deque_append (maxlen : nat) (d : list Q) (x : Q) : list Q :=
  if (length d <? maxlen)%nat then d ++ [x] else tl (d ++ [x]).

(** ** RouteGeometryProjector *)

Section Projector.

(** [geodesic_miles lat1 lon1 lat2 lon2] is
    [geodesic((lat1, lon1), (lat2, lon2)).miles]; [None] stands for the
    call raising an exception. *)
Variable geodesic_miles : Q -> Q -> Q -> Q -> option Q.

(** [max(0, min(1, remaining / segment if segment > 0 else 0))] *)
Definition interpolation_ratio (remaining_distance segment_distance : Q) : Q :=
  Qmax 0 (Qmin 1 (if Qlt_bool 0 segment_distance
                  then remaining_distance / segment_distance
                  else 0)).

Definition interpolate (lon0 lat0 lon1 lat1 ratio : Q) : point :=
  [lon0 + ratio * (lon1 - lon0); lat0 + ratio * (lat1 - lat0)].

(** The [for i in range(len(route) - 1)] loop, run on the suffix
    [route[i:]]: [route[i+1:]] is the tail of that suffix and
    [route[-1]] is its last element. *)
Fixpoint scan_route (route : list point) (distance_traveled target : Q)
  : point * list point :=
  match route with
  | start :: rest =>
      match rest with
      | end_ :: _ =>
          match start, end_ with
          | lon0 :: lat0 :: _, lon1 :: lat1 :: _ =>
              match geodesic_miles lat0 lon0 lat1 lon1 with
              | Some segment_distance =>
                  if Qle_bool target (distance_traveled + segment_distance)
                  then
                    let remaining_distance := target - distance_traveled in
                    let ratio :=
                      interpolation_ratio remaining_distance segment_distance in
                    (interpolate lon0 lat0 lon1 lat1 ratio, rest)
                  else scan_route rest (distance_traveled + segment_distance) target
              | None => scan_route rest distance_traveled target
              end
          | _, _ => scan_route rest distance_traveled target
          end
      | [] => (start, [])
      end
  | [] => ([], [])
  end.

Definition find_location_after_distance (route : list point)
    (target_distance_miles : Q) : point * list point :=
  match route with
  | [] => ([0; 0], [])
  | [p] => (p, [])
  | _ => scan_route route 0 target_distance_miles
  end.

End Projector.

(** ** HOSScheduleSimulator *)

(** The local variables of [calculate_route_schedule].  [trace] is the
    [schedule] list in emission order; next to every event it keeps the
    content of [daily_duty_hours] at the moment of the [schedule.append]
    call (a ghost component, erased by [schedule_of]).  For DRIVING, REST
    and RESTART the sum of that snapshot is the local
    [total_cycle_hours], since the deque is not written between its
    computation and the append. *)
Record sim_state : Type := mkState {
  trace : list (event * list Q);
  current_day_driving : Q;
  current_day_duty : Q;
  hours_since_break : Q;
  cycle_hours_used : Q;
  current_day : Z;
  distance_since_fuel : Q;
  pickup_done : bool;
  current_location : point;
  daily_duty_hours : list Q;
  remaining_segment_hours : Q;
  remaining_coords : list point
}.

Definition schedule_of (st : sim_state) : list event := map fst (trace st).

(** [schedule.append(e)] *)
Definition emit (e : event) (st : sim_state) : list (event * list Q) :=
  trace st ++ [(e, daily_duty_hours st)].

Definition initial_state (initial_hours_used : Q) : sim_state :=
  mkState [] 0 0 0 initial_hours_used 1 0 false [0; 0]
          (initial_hours_used :: repeat 0 (cycle_days - 1)) 0 [].

Section Simulator.

Variable geodesic_miles : Q -> Q -> Q -> Q -> option Q.

(** Lines 93-128: the per-leg set-up and the pickup. *)
Definition speed_of (segment : Segment.t) : Q :=
  if Qlt_bool 0 (Segment.duration_hours segment)
  then Segment.distance_miles segment / Segment.duration_hours segment
  else 55.

Definition coords_of (segment : Segment.t) : list point :=
  match Segment.coordinates segment with
  | _ :: _ :: _ => Segment.coordinates segment
  | _ => [[0; 0]; [0; 0]]
  end.

Definition enter_segment (segment : Segment.t) (st : sim_state) : sim_state :=
  let coords := coords_of segment in
  mkState (trace st) (current_day_driving st) (current_day_duty st)
          (hours_since_break st) (cycle_hours_used st) (current_day st)
          (distance_since_fuel st) (pickup_done st)
          (match coords with c :: _ => c | [] => current_location st end)
          (daily_duty_hours st)
          (Segment.duration_hours segment) coords.

Definition pickup (i pickup_location_index : Z) (st : sim_state) : sim_state :=
  if (i =? pickup_location_index)%Z && negb (pickup_done st) then
    let e := mkEvent PICKUP i pickup_duration_hours (current_day st)
               (current_day_duty st)
               (current_day_duty st + pickup_duration_hours)
               (current_location st) None None None in
    mkState (emit e st) (current_day_driving st)
            (current_day_duty st + pickup_duration_hours)
            (hours_since_break st + pickup_duration_hours)
            (cycle_hours_used st + pickup_duration_hours)
            (current_day st) (distance_since_fuel st) true
            (current_location st)
            (deque_add_head (daily_duty_hours st) pickup_duration_hours)
            (remaining_segment_hours st) (remaining_coords st)
  else st.

(** Lines 131-146: the 30-minute break check at the top of an iteration. *)
Definition break_check (i : Z) (st : sim_state) : sim_state :=
  if Qle_bool required_break_after_hours (hours_since_break st) then
    let e := mkEvent BREAK i required_break_duration_hours (current_day st)
               (current_day_duty st)
               (current_day_duty st + required_break_duration_hours)
               (current_location st) None None None in
    mkState (emit e st) (current_day_driving st)
            (current_day_duty st + required_break_duration_hours)
            0
            (cycle_hours_used st + required_break_duration_hours)
            (current_day st) (distance_since_fuel st) (pickup_done st)
            (current_location st)
            (deque_add_head (daily_duty_hours st) required_break_duration_hours)
            (remaining_segment_hours st) (remaining_coords st)
  else st.

(** Lines 149-159. *)
Definition total_cycle_hours (st : sim_state) : Q :=
  sum_Q (daily_duty_hours st).

Definition remaining_cycle_hours (st : sim_state) : Q :=
  Qmax 0 (max_cycle_hours - total_cycle_hours st).

Definition available_day_driving (st : sim_state) : Q :=
  Qmin (Qmin (Qmin (max_daily_driving_hours - current_day_driving st)
                   (max_daily_duty_hours - current_day_duty st))
             (remaining_cycle_hours st))
       (remaining_segment_hours st).

(** Lines 165-184: the 34-hour restart. *)
Definition take_restart (i : Z) (st : sim_state) : sim_state :=
  let e := mkEvent RESTART i 34 (current_day st) (current_day_duty st) 0
             (current_location st) None None (Some "34-hour"%string) in
  mkState (emit e st) 0 0 0 0 (current_day st + 2)%Z
          (distance_since_fuel st) (pickup_done st) (current_location st)
          (repeat 0 cycle_days)
          (remaining_segment_hours st) (remaining_coords st).

(** Lines 186-203: the 10-hour rest. *)
Definition take_rest (i : Z) (st : sim_state) : sim_state :=
  let e := mkEvent REST i min_rest_period_hours (current_day st)
             (current_day_duty st) 0 (current_location st) None None None in
  mkState (emit e st) 0 0 0 (cycle_hours_used st) (current_day st + 1)%Z
          (distance_since_fuel st) (pickup_done st) (current_location st)
          (deque_append cycle_days (daily_duty_hours st) 0)
          (remaining_segment_hours st) (remaining_coords st).

(** [if updated_remaining_coords: remaining_coords = updated_remaining_coords] *)
Definition keep_if_empty (updated_remaining_coords remaining : list point)
  : list point :=
  match updated_remaining_coords with
  | [] => remaining
  | _ :: _ => updated_remaining_coords
  end.

(** Lines 210-222: the position after the stint.  The projector does not
    raise in this model, so the [except] branch is not represented. *)
Definition advance_location (distance_covered : Q) (st : sim_state)
  : point * list point :=
  match remaining_coords st with
  | _ :: _ :: _ =>
      let found := find_location_after_distance geodesic_miles
                     (remaining_coords st) distance_covered in
      (fst found, keep_if_empty (snd found) (remaining_coords st))
  | _ => (current_location st, remaining_coords st)
  end.

(** Lines 207-245: one granted stint of [available] hours. *)
Definition drive (i : Z) (speed_mph available : Q) (st : sim_state)
  : sim_state :=
  let distance_covered := speed_mph * available in
  let location := fst (advance_location distance_covered st) in
  let coords := snd (advance_location distance_covered st) in
  let e := mkEvent DRIVING i available (current_day st)
             (current_day_duty st) (current_day_duty st + available)
             location (Some distance_covered)
             (Some (max_cycle_hours - (total_cycle_hours st + available)))
             None in
  mkState (emit e st)
          (current_day_driving st + available)
          (current_day_duty st + available)
          (hours_since_break st + available)
          (cycle_hours_used st + available)
          (current_day st)
          (distance_since_fuel st + distance_covered)
          (pickup_done st) location
          (deque_add_head (daily_duty_hours st) available)
          (remaining_segment_hours st - available) coords.

(** Lines 248-296: the fuel stop.  Both the [try] body and its [except]
    handler append the same event and make the same updates; only the
    [try] body, which cannot raise here, is represented. *)
Definition fuel_check (i : Z) (st : sim_state) : sim_state :=
  match remaining_coords st with
  | [] => st
  | _ :: _ =>
      if Qle_bool fuel_distance_miles (distance_since_fuel st) then
        let fuel_distance := Qmin (distance_since_fuel st) fuel_distance_miles in
        let found := find_location_after_distance geodesic_miles
                       (remaining_coords st) fuel_distance in
        let fuel_location := fst found in
        let coords := keep_if_empty (snd found) (remaining_coords st) in
        let e := mkEvent FUEL i fuel_duration_hours (current_day st)
                   (current_day_duty st)
                   (current_day_duty st + fuel_duration_hours)
                   fuel_location None None None in
        mkState (emit e st)
                (current_day_driving st)
                (current_day_duty st + fuel_duration_hours)
                (hours_since_break st + fuel_duration_hours)
                (cycle_hours_used st + fuel_duration_hours)
                (current_day st) 0 (pickup_done st) fuel_location
                (deque_add_head (daily_duty_hours st) fuel_duration_hours)
                (remaining_segment_hours st) coords
      else st
  end.

(** One iteration of [while remaining_segment_hours > 0]. *)
Definition while_body (i : Z) (speed_mph : Q) (st : sim_state) : sim_state :=
  let st1 := break_check i st in
  let available := available_day_driving st1 in
  if Qle_bool available 0 then
    if Qle_bool (remaining_cycle_hours st1) 0
    then take_restart i st1
    else take_rest i st1
  else fuel_check i (drive i speed_mph available st1).

(** The [while] loop, bounded by [fuel] iterations; [None] when the
    bound is reached with hours still to drive. *)
Fixpoint while_loop (fuel : nat) (i : Z) (speed_mph : Q) (st : sim_state)
  : option sim_state :=
  if Qlt_bool 0 (remaining_segment_hours st) then
    match fuel with
    | O => None
    | S fuel' => while_loop fuel' i speed_mph (while_body i speed_mph st)
    end
  else Some st.

(** The body of [for i, segment in enumerate(route_segments)]. *)
Definition run_segment (fuel : nat) (pickup_location_index : Z) (i : Z)
    (segment : Segment.t) (st : sim_state) : option sim_state :=
  while_loop fuel i (speed_of segment)
    (pickup i pickup_location_index (enter_segment segment st)).

Fixpoint run_segments (fuel : nat) (pickup_location_index : Z) (i : Z)
    (route_segments : list Segment.t) (st : sim_state) : option sim_state :=
  match route_segments with
  | [] => Some st
  | segment :: rest =>
      match run_segment fuel pickup_location_index i segment st with
      | Some st' => run_segments fuel pickup_location_index (i + 1)%Z rest st'
      | None => None
      end
  end.

(** Lines 298-318: the dropoff after the last leg. *)
Definition dropoff (route_segments : list Segment.t) (st : sim_state)
  : sim_state :=
  match route_segments with
  | [] => st
  | _ :: _ =>
      let final_coords :=
        Segment.coordinates (last route_segments (Segment.mk 0 0 [])) in
      let location := match final_coords with
                      | [] => current_location st
                      | _ :: _ => last final_coords []
                      end in
      let e := mkEvent DROPOFF (Z.of_nat (length route_segments))
                 dropoff_duration_hours (current_day st)
                 (current_day_duty st)
                 (current_day_duty st + dropoff_duration_hours)
                 location None None None in
      mkState (emit e st)
              (current_day_driving st) (current_day_duty st)
              (hours_since_break st) (cycle_hours_used st) (current_day st)
              (distance_since_fuel st) (pickup_done st) location
              (daily_duty_hours st)
              (remaining_segment_hours st) (remaining_coords st)
  end.

(** The whole call, with [fuel] iterations allowed to each leg's loop. *)
Definition simulate (fuel : nat) (route_segments : list Segment.t)
    (initial_hours_used : Q) (pickup_location_index : Z) : option sim_state :=
  match run_segments fuel pickup_location_index 0%Z route_segments
          (initial_state initial_hours_used) with
  | Some st => Some (dropoff route_segments st)
  | None => None
  end.

(** Iterations that suffice for one leg: after at most two iterations the
    counters are reset, and from then on every second iteration drives
    a full 11 hours or ends the leg. *)
Definition loop_bound (segment : Segment.t) : nat :=
  2 * Z.to_nat (Qceiling (Segment.duration_hours segment
                          / max_daily_driving_hours)) + 2.

Definition enough_fuel (route_segments : list Segment.t) : nat :=
  fold_right (fun segment n => Nat.max (loop_bound segment) n) O route_segments.

Definition calculate_route_trace (route_segments : list Segment.t)
    (initial_hours_used : Q) (pickup_location_index : Z)
  : option (list (event * list Q)) :=
  option_map trace
    (simulate (enough_fuel route_segments) route_segments
              initial_hours_used pickup_location_index).

Definition calculate_route_schedule (route_segments : list Segment.t)
    (initial_hours_used : Q) (pickup_location_index : Z)
  : option (list event) :=
  option_map (map fst)
    (calculate_route_trace route_segments initial_hours_used
                           pickup_location_index).

End Simulator.

(** ** ELDLogBuilder *)

Inductive duty_status : Type := D | ON | OFF | SB.

Module LogEntry.
Record t : Type := mk {
  status : duty_status;
  start_hour : Q;
  end_hour : Q;
  activity_type : activity;
  location_index : option Z;
  coord : option point;
  cycle_hours_remaining : option Q
}.
End LogEntry.

Module DailyLog.
Record t : Type := mk {
  day : Z;
  date : string;
  activities : list LogEntry.t
}.
End DailyLog.

(** [days_schedule[day].append(item)], creating the key on first use; the
    dict is kept as an association list in insertion order. *)
Fixpoint add_to_day (days_schedule : list (Z * list event)) (item : event)
  : list (Z * list event) :=
  match days_schedule with
  | [] => [(day item, [item])]
  | (d, items) :: rest =>
      if (d =? day item)%Z then (d, items ++ [item]) :: rest
      else (d, items) :: add_to_day rest item
  end.

(** Python's stable [sorted]: an element goes after every element that is
    not greater. *)
Fixpoint insert_sorted {A : Type} (le : A -> A -> bool) (x : A) (l : list A)
  : list A :=
  match l with
  | [] => [x]
  | y :: r => if le y x then y :: insert_sorted le x r else x :: y :: r
  end.

Definition sorted {A : Type} (le : A -> A -> bool) (l : list A) : list A :=
  fold_left (fun acc x => insert_sorted le x acc) l [].

Definition status_of (a : activity) : duty_status :=
  match a with
  | DRIVING => D
  | PICKUP | DROPOFF | FUEL => ON
  | BREAK => OFF
  | REST | RESTART => SB
  end.

Definition log_entry_of (item : event) : LogEntry.t :=
  LogEntry.mk (status_of (activity_type item))
    (start_duty_hours item)
    (match activity_type item with
     | REST | RESTART => 24
     | _ => end_duty_hours item
     end)
    (activity_type item)
    (Some (location_index item))
    (Some (coord item))
    (cycle_hours_remaining item).

Definition generate_eld_logs (schedule : list event) : list DailyLog.t :=
  let days_schedule := fold_left add_to_day schedule [] in
  map (fun '(d, items) =>
         DailyLog.mk d
           ("Day " ++ NilZero.string_of_int (Z.to_int d))%string
           (map log_entry_of
              (sorted (fun x y => Qle_bool (start_duty_hours x) (start_duty_hours y))
                      items)))
      (sorted (fun x y => (fst x <=? fst y)%Z) days_schedule).


(** ** The routing client [OSMRouteClient.get_route] *)

(** The exceptions that the client and the view let escape. *)
Inductive exn : Type :=
  | OSM_api_error (status_code : Z)
  | OSM_routing_error (message : string)
  | KeyError (key : string)
  | IndexError
  | ValueError.

Inductive outcome (A : Type) : Type :=
  | Returned (a : A)
  | Raised (e : exn).

Arguments Returned {A} a.
Arguments Raised {A} e.

Definition bind {A B : Type} (x : outcome A) (f : A -> outcome B)
  : outcome B :=
  match x with
  | Returned a => f a
  | Raised e => Raised e
  end.

(** [d[key]] on a dict whose key may be absent. *)
Definition item {A : Type} (key : string) (value : option A) : outcome A :=
  match value with
  | Some a => Returned a
  | None => Raised (KeyError key)
  end.

(** The JSON document of OSRM, with the keys that the client reads;
    [geometry] is the list under its ["coordinates"]. *)
Module OSRM.
Record route : Type := mk_route {
  distance : option Q;
  duration : option Q;
  geometry : option (list point)
}.

Record data : Type := mk_data {
  code : option string;
  message : option string;
  routes : option (list route)
}.

Record response : Type := mk_response {
  status_code : Z;
  json : data
}.
End OSRM.

(** The dict that [get_route] returns. *)
Module Route.
Record t : Type := mk {
  distance_miles : Q;
  duration_hours : Q;
  geometry : list point
}.
End Route.

Definition meters_to_miles : Q := 621371 # 1000000000.

Section Client.

(** [requests.get] on the URL built from the two coordinate pairs
    (longitude and latitude of the start, then of the end). *)
Variable fetch : Q * Q -> Q * Q -> OSRM.response.

Definition get_route (start_coords end_coords : Q * Q) : outcome Route.t :=
  let response := fetch start_coords end_coords in
  if negb (OSRM.status_code response =? 200)%Z then
    Raised (OSM_api_error (OSRM.status_code response))
  else
    let data := OSRM.json response in
    if negb (match OSRM.code data with
             | Some c => String.eqb c "Ok"
             | None => false
             end)
    then
      Raised (OSM_routing_error
                (match OSRM.message data with
                 | Some m => m
                 | None => "Unknown error"%string
                 end))
    else
      bind (item "routes" (OSRM.routes data)) (fun routes =>
      match routes with
      | [] => Raised IndexError
      | route :: _ =>
          bind (item "distance" (OSRM.distance route)) (fun distance =>
          bind (item "duration" (OSRM.duration route)) (fun duration =>
          bind (item "geometry" (OSRM.geometry route)) (fun geometry =>
          Returned (Route.mk (distance * meters_to_miles)
                             (duration / 3600) geometry))))
      end).

End Client.

(** ** The view [RouteCalculator.post] *)

(** A location of the request: a dict with ["lng"], ["lat"] and an
    optional ["name"]. *)
Module Location.
Record t : Type := mk {
  name : option string;
  lat : option Q;
  lng : option Q
}.
End Location.

(** [request.data].  [current_cycle_hours] is [None] when the key is
    absent and [Some None] when [float] rejects its value. *)
Module Request.
Record t : Type := mk {
  current_location : option Location.t;
  pickup_location : option Location.t;
  dropoff_location : option Location.t;
  current_cycle_hours : option (option Q)
}.
End Request.

Module Waypoint.
Record t : Type := mk {
  name : string;
  lat : Q;
  lng : Q;
  type : string
}.
End Waypoint.

Module Stats.
Record t : Type := mk {
  total_distance : Q;
  total_driving_hours : Q;
  total_trip_days : Z
}.
End Stats.

Module Response.
(** A leg as the response shows it: the names of its two ends next to
    what the simulator reads. *)
Record leg : Type := mk_leg {
  start_name : string;
  end_name : string;
  segment : Segment.t
}.

Record body : Type := mk {
  route_segments : list leg;
  schedule : list event;
  eld_logs : list DailyLog.t;
  waypoints : list Waypoint.t;
  stats : Stats.t
}.

Inductive t : Type :=
  | Bad_request (error : string)
  | Ok (b : body).
End Response.

(** The truth value of a location in [all([...])]: [None] and the empty
    dict are false. *)
Definition truthy (location : option Location.t) : bool :=
  match location with
  | None => false
  | Some l =>
      match Location.name l, Location.lat l, Location.lng l with
      | None, None, None => false
      | _, _, _ => true
      end
  end.

Definition name_or (default : string) (l : Location.t) : string :=
  match Location.name l with
  | Some n => n
  | None => default
  end.

Definition activity_name (a : activity) : string :=
  match a with
  | DRIVING => "DRIVING"
  | BREAK => "BREAK"
  | REST => "REST"
  | RESTART => "RESTART"
  | PICKUP => "PICKUP"
  | DROPOFF => "DROPOFF"
  | FUEL => "FUEL"
  end%string.

(** The waypoint with the given name and type at a location of the
    request; ['lat'] is read before ['lng']. *)
Definition location_waypoint (default type : string) (l : Location.t)
  : outcome Waypoint.t :=
  bind (item "lat" (Location.lat l)) (fun lat =>
  bind (item "lng" (Location.lng l)) (fun lng =>
  Returned (Waypoint.mk (name_or default l) lat lng type))).

(** The waypoints that one schedule item adds: one for FUEL, one of type
    ["REST"] for REST and BREAK, none for the other activities.
    [item['coord'][1]] and [item['coord'][0]] raise on a short list. *)
Definition stop_waypoints (e : event) : outcome (list Waypoint.t) :=
  match activity_type e with
  | FUEL | REST | BREAK =>
      match coord e with
      | lon :: lat :: _ =>
          Returned [Waypoint.mk (activity_name (activity_type e) ++ " Stop")
                      lat lon
                      (match activity_type e with
                       | FUEL => "FUEL"
                       | _ => "REST"
                       end)%string]
      | _ => Raised IndexError
      end
  | _ => Returned []
  end.

Fixpoint schedule_waypoints (s : list event) : outcome (list Waypoint.t) :=
  match s with
  | [] => Returned []
  | e :: r =>
      bind (stop_waypoints e) (fun w =>
      bind (schedule_waypoints r) (fun ws => Returned (w ++ ws)))
  end.

(** [max(item['day'] for item in schedule)] *)
Definition max_of_days (s : list event) : outcome Z :=
  match s with
  | [] => Raised ValueError
  | e :: r => Returned (fold_left Z.max (map day r) (day e))
  end.

Section View.

Variable geodesic_miles : Q -> Q -> Q -> Q -> option Q.
Variable fetch : Q * Q -> Q * Q -> OSRM.response.

Definition segment_of (route : Route.t) : Segment.t :=
  Segment.mk (Route.distance_miles route) (Route.duration_hours route)
             (Route.geometry route).

(** The part of [post] after both routes are known.  [None] stands for
    the iteration bound of the simulator being reached. *)
Definition respond (current pickup dropoff : Location.t)
    (current_cycle_hours : Q) (legs : list Response.leg)
  : option (outcome Response.t) :=
  let route_segments := map Response.segment legs in
  match calculate_route_schedule geodesic_miles route_segments
          current_cycle_hours 0 with
  | None => None
  | Some schedule =>
      Some (
        let eld_logs := generate_eld_logs schedule in
        bind (location_waypoint "Current Location" "START" current)
          (fun start =>
        bind (location_waypoint "Pickup Location" "PICKUP" pickup)
          (fun pick =>
        bind (schedule_waypoints schedule) (fun stops =>
        bind (location_waypoint "Dropoff Location" "DROPOFF" dropoff)
          (fun drop =>
        let total_distance :=
          sum_Q (map Segment.distance_miles route_segments) in
        let total_driving_hours :=
          sum_Q (map Segment.duration_hours route_segments) in
        bind (max_of_days schedule) (fun total_trip_days =>
        Returned (Response.Ok
          (Response.mk legs schedule eld_logs
             ([start; pick] ++ stops ++ [drop])
             (Stats.mk total_distance total_driving_hours
                       total_trip_days)))))))))
  end.

Definition post (request : Request.t) : option (outcome Response.t) :=
  match Request.current_cycle_hours request with
  | Some None => Some (Raised ValueError)
  | hours =>
      let current_cycle_hours :=
        match hours with
        | Some (Some h) => h
        | _ => 0
        end in
      match Request.current_location request,
            Request.pickup_location request,
            Request.dropoff_location request with
      | Some current, Some pickup, Some dropoff =>
          if truthy (Some current) && truthy (Some pickup)
             && truthy (Some dropoff)
          then
            match
              bind (item "lng" (Location.lng current)) (fun clng =>
              bind (item "lat" (Location.lat current)) (fun clat =>
              bind (item "lng" (Location.lng pickup)) (fun plng =>
              bind (item "lat" (Location.lat pickup)) (fun plat =>
              bind (get_route fetch (clng, clat) (plng, plat))
                (fun current_to_pickup =>
              bind (item "lng" (Location.lng pickup)) (fun plng' =>
              bind (item "lat" (Location.lat pickup)) (fun plat' =>
              bind (item "lng" (Location.lng dropoff)) (fun dlng =>
              bind (item "lat" (Location.lat dropoff)) (fun dlat =>
              bind (get_route fetch (plng', plat') (dlng, dlat))
                (fun pickup_to_dropoff =>
              Returned
                [Response.mk_leg (name_or "Current Location" current)
                                 (name_or "Pickup Location" pickup)
                                 (segment_of current_to_pickup);
                 Response.mk_leg (name_or "Pickup Location" pickup)
                                 (name_or "Dropoff Location" dropoff)
                                 (segment_of pickup_to_dropoff)]))))))))))
            with
            | Raised e => Some (Raised e)
            | Returned legs =>
                respond current pickup dropoff current_cycle_hours legs
            end
          else Some (Returned
                       (Response.Bad_request "Missing required location data"))
      | _, _, _ =>
          Some (Returned
                  (Response.Bad_request "Missing required location data"))
      end
  end.

End View.

(** * Vocabulary of the statements *)

(** The shape the deque has throughout a run: [cycle_days] entries of
    which only the one at index 0 may differ from [0]. *)
Definition head_only (d : list Q) : Prop :=
  exists a, d = a :: repeat 0 (cycle_days - 1).

(** What a step leaves alone or only increases. *)
Record grows (st st' : sim_state) : Prop := {
  grows_window : head_only (daily_duty_hours st) ->
                 head_only (daily_duty_hours st');
  grows_driving : current_day_driving st' = current_day_driving st;
  grows_duty : current_day_duty st <= current_day_duty st';
  grows_total : head_only (daily_duty_hours st) ->
                total_cycle_hours st <= total_cycle_hours st';
  grows_hours : remaining_segment_hours st' = remaining_segment_hours st;
  grows_day : current_day st' = current_day st
}.

(** The state right after a REST or a RESTART. *)
Definition fresh (st : sim_state) : Prop :=
  current_day_driving st == 0 /\ current_day_duty st == 0 /\
  hours_since_break st == 0 /\ total_cycle_hours st == 0.

(** A state from which no stint can be granted. *)
Definition capped (st : sim_state) : Prop :=
  max_daily_driving_hours <= current_day_driving st \/
  max_daily_duty_hours <= current_day_duty st \/
  max_cycle_hours <= total_cycle_hours st.

(** The hours of [n] full driving days. *)
Definition day_hours (n : nat) : Q :=
  max_daily_driving_hours * inject_Z (Z.of_nat n).

(** An event without its coordinate, and a trace entry without it. *)
Definition timing (e : event) : event :=
  mkEvent (activity_type e) (location_index e) (duration_hours e) (day e)
          (start_duty_hours e) (end_duty_hours e) []
          (distance_miles e) (cycle_hours_remaining e) (restart_type e).

Definition timed (p : event * list Q) : event * list Q :=
  (timing (fst p), snd p).

(** Two states that differ at most in the coordinates they carry. *)
Record same_timing (s1 s2 : sim_state) : Prop := {
  same_trace : map timed (trace s1) = map timed (trace s2);
  same_driving : current_day_driving s1 = current_day_driving s2;
  same_duty : current_day_duty s1 = current_day_duty s2;
  same_break : hours_since_break s1 = hours_since_break s2;
  same_cycle : cycle_hours_used s1 = cycle_hours_used s2;
  same_day : current_day s1 = current_day s2;
  same_fuel : distance_since_fuel s1 = distance_since_fuel s2;
  same_pickup : pickup_done s1 = pickup_done s2;
  same_window : daily_duty_hours s1 = daily_duty_hours s2;
  same_hours : remaining_segment_hours s1 = remaining_segment_hours s2;
  same_coords : remaining_coords s1 = [] <-> remaining_coords s2 = []
}.

(** Equality of events up to the value of their numbers, the coordinate
    left aside. *)
Definition Qeq_option (a b : option Q) : Prop :=
  match a, b with
  | Some x, Some y => x == y
  | None, None => True
  | _, _ => False
  end.

Definition same_event (e e' : event) : Prop :=
  activity_type e = activity_type e' /\
  location_index e = location_index e' /\
  duration_hours e == duration_hours e' /\
  day e = day e' /\
  start_duty_hours e == start_duty_hours e' /\
  end_duty_hours e == end_duty_hours e' /\
  Qeq_option (distance_miles e) (distance_miles e') /\
  Qeq_option (cycle_hours_remaining e) (cycle_hours_remaining e') /\
  restart_type e = restart_type e'.

(** A stand-in for the geodesic distance, to run closed examples: it
    measures every pair of points as 0 miles apart. *)
Definition no_distance : Q -> Q -> Q -> Q -> option Q :=
  fun _ _ _ _ => Some 0.

(** Measures of a schedule. *)
Definition is_activity (a : activity) (e : event) : bool :=
  activity_eqb (activity_type e) a.

Definition miles_of (e : event) : Q :=
  match distance_miles e with
  | Some d => d
  | None => 0
  end.

(** The sum of [distance_miles] over the DRIVING events. *)
Definition driven_miles (s : list event) : Q :=
  sum_Q (map miles_of (filter (is_activity DRIVING) s)).

(** [max(item['day'] for item in schedule)] *)
Definition max_day (s : list event) : Z :=
  fold_right Z.max 0%Z (map day s).

(** The activities that count as duty time. *)
Definition duty_counted (a : activity) : bool :=
  match a with
  | DRIVING | BREAK | PICKUP | DROPOFF | FUEL => true
  | REST | RESTART => false
  end.

Definition on_duty_on (d : Z) (e : event) : bool :=
  duty_counted (activity_type e) && (day e =? d)%Z.

(** The duty-counted hours that a schedule puts on day [d]. *)
Definition duty_on_day (s : list event) (d : Z) : Q :=
  sum_Q (map duration_hours (filter (on_duty_on d) s)).

(** The duty-counted hours of the eight days that end with day [d]. *)
Definition trailing_duty (s : list event) (d : Z) : Q :=
  sum_Q (map (fun k => duty_on_day s (d - Z.of_nat k)) (seq 0 cycle_days)).

(** The inputs of the scenarios. *)
Definition scenario_B_legs : list Segment.t :=
  [Segment.mk 600 11 []; Segment.mk 600 11 []].

Definition scenario_D_legs : list Segment.t := [Segment.mk 100 2 []].

(** What the code returns on scenario B, coordinates aside. *)
Definition scenario_B_schedule : list event :=
  [ mkEvent PICKUP 0 1 1 0 1 [0; 0] None None None;
    mkEvent DRIVING 0 11 1 1 12 [0; 0] (Some 600) (Some 58) None;
    mkEvent BREAK 1 (1 # 2) 1 12 (25 # 2) [0; 0] None None None;
    mkEvent REST 1 10 1 (25 # 2) 0 [0; 0] None None None;
    mkEvent DRIVING 1 11 2 0 11 [0; 0] (Some 600) (Some 59) None;
    mkEvent FUEL 1 1 2 11 12 [0; 0] None None None;
    mkEvent DROPOFF 2 1 2 12 13 [0; 0] None None None ].

(** What the code returns on scenario D, coordinates aside. *)
Definition scenario_D_schedule : list event :=
  [ mkEvent PICKUP 0 1 1 0 1 [0; 0] None None None;
    mkEvent RESTART 0 34 1 1 0 [0; 0] None None (Some "34-hour"%string);
    mkEvent DRIVING 0 2 3 0 2 [0; 0] (Some 100) (Some 68) None;
    mkEvent DROPOFF 1 1 3 2 3 [0; 0] None None None ].

(** The activity, day and deque snapshot of every entry of a trace. *)
Definition window_log (t : list (event * list Q))
  : list (activity * Z * list Q) :=
  map (fun p => (activity_type (fst p), day (fst p), map Qred (snd p))) t.

(** A leg of 1200 miles in 24 hours: three days of driving with two
    rests. *)
Definition three_day_leg : list Segment.t := [Segment.mk 1200 24 []].

(** Two legs of 1000 miles, of 10 hours and of 1 hour. *)
Definition two_fuel_legs : list Segment.t :=
  [Segment.mk 1000 10 []; Segment.mk 1000 1 []].

(** A leg as section 6 of the specification has it. *)
Definition well_formed (segment : Segment.t) : Prop :=
  0 < Segment.distance_miles segment /\ 0 <= Segment.duration_hours segment.

(** What C5 asks of a trace entry: a DRIVING event is granted against a
    window that sums to less than 70 and records what is left of the 70
    hours after the stint; a RESTART is taken against a window that sums
    to 70 or more. *)
Definition cycle_ok (p : event * list Q) : Prop :=
  match activity_type (fst p) with
  | DRIVING =>
      sum_Q (snd p) < max_cycle_hours /\
      exists c,
        cycle_hours_remaining (fst p) = Some c /\
        c == max_cycle_hours - (sum_Q (snd p) + duration_hours (fst p)) /\
        0 <= c
  | RESTART => max_cycle_hours <= sum_Q (snd p)
  | _ => True
  end.

(** The duty hours of a day, counted up to and including each DRIVING
    event of that day, stay within the 14-hour cap. *)
Definition stints_within_cap (s : list event) : Prop :=
  forall pre e post,
    s = pre ++ e :: post ->
    activity_type e = DRIVING ->
    duty_on_day (pre ++ [e]) (day e) <= max_daily_duty_hours.

(** The invariant behind it: no event is later than the current day, and
    [current_day_duty] is the duty time the schedule puts on that day. *)
Record day_accounted (st : sim_state) : Prop := {
  days_past : Forall (fun e => (day e <= current_day st)%Z) (schedule_of st);
  duty_today :
    duty_on_day (schedule_of st) (current_day st) == current_day_duty st;
  stints_capped : stints_within_cap (schedule_of st)
}.

(** * Vocabulary of the further properties *)

(** The keys of [days_schedule], and the items it keeps under a day. *)
Definition day_keys (days_schedule : list (Z * list event)) : list Z :=
  map fst days_schedule.

Definition items_of (days_schedule : list (Z * list event)) (d : Z)
  : list event :=
  match find (fun p => (fst p =? d)%Z) days_schedule with
  | Some p => snd p
  | None => []
  end.

(** The events that a schedule puts on day [d], in schedule order. *)
Definition events_on (d : Z) (s : list event) : list event :=
  filter (fun e => (day e =? d)%Z) s.

(** The two orders [generate_eld_logs] sorts by. *)
Definition by_day (x y : Z * list event) : bool := (fst x <=? fst y)%Z.

Definition by_start (x y : event) : bool :=
  Qle_bool (start_duty_hours x) (start_duty_hours y).

(** The log of one day, from its entry of [days_schedule]. *)
Definition daily_log_of (p : Z * list event) : DailyLog.t :=
  DailyLog.mk (fst p)
    ("Day " ++ NilZero.string_of_int (Z.to_int (fst p)))%string
    (map log_entry_of (sorted by_start (snd p))).

(** The day on which the event after [e] is scheduled. *)
Definition next_day (e : event) : Z :=
  match activity_type e with
  | REST => day e + 1
  | RESTART => day e + 2
  | _ => day e
  end%Z.

(** A schedule that starts on day [d] and moves from each event to the
    next by [next_day]. *)
Fixpoint day_steps (d : Z) (s : list event) : Prop :=
  match s with
  | [] => True
  | e :: r => day e = d /\ day_steps (next_day e) r
  end.

(** The day that follows a schedule started on day [d]. *)
Definition end_day (d : Z) (s : list event) : Z :=
  fold_left (fun _ e => next_day e) s d.

(** The DRIVING hours that a schedule puts on day [d]. *)
Definition driving_on (d : Z) (e : event) : bool :=
  is_activity DRIVING e && (day e =? d)%Z.

Definition driving_on_day (s : list event) (d : Z) : Q :=
  sum_Q (map duration_hours (filter (driving_on d) s)).

(** Of two events of one day, the earlier in the schedule does not start
    later. *)
Definition same_day_before (a b : event) : Prop :=
  day a = day b -> start_duty_hours a <= start_duty_hours b.

(** How the counters of a state relate to the schedule built so far. *)
Record coherent (st : sim_state) : Prop := {
  co_steps : day_steps 1 (schedule_of st);
  co_today : end_day 1 (schedule_of st) = current_day st;
  co_past :
    Forall (fun a => (day a <= current_day st)%Z /\
                     (day a = current_day st ->
                      start_duty_hours a <= current_day_duty st))
           (schedule_of st);
  co_order : StronglySorted same_day_before (schedule_of st);
  co_driving :
    driving_on_day (schedule_of st) (current_day st)
    == current_day_driving st;
  co_capped :
    forall d, driving_on_day (schedule_of st) d <= max_daily_driving_hours
}.


(** The schedule items that [post] turns into waypoints, and the type it
    gives them. *)
Definition is_stop (e : event) : bool :=
  match activity_type e with
  | FUEL | REST | BREAK => true
  | _ => false
  end.

Definition stop_type (e : event) : string :=
  match activity_type e with
  | FUEL => "FUEL"
  | _ => "REST"
  end%string.

Definition has_lon_lat (e : event) : Prop := (2 <= length (coord e))%nat.

(** Two legs with the same distance and duration, whatever their
    geometry. *)
Definition same_leg (a b : Segment.t) : Prop :=
  Segment.distance_miles a = Segment.distance_miles b /\
  Segment.duration_hours a = Segment.duration_hours b.





(** A routing service that is down. *)
Definition failing_fetch : Q * Q -> Q * Q -> OSRM.response :=
  fun _ _ => OSRM.mk_response 503 (OSRM.mk_data None None None).



(** * Verification *)

(** ** Booleans, sums and the deque *)

Lemma Qlt_bool_iff (a b : Q) : Qlt_bool a b = true <-> a < b.
Proof.
  unfold Qlt_bool. rewrite negb_true_iff.
  destruct (Qle_bool b a) eqn:E.
  - apply Qle_bool_iff in E. split; [discriminate | intro H; lra].
  - split; [intros _ | reflexivity].
    destruct (Qlt_le_dec a b) as [H | H]; [exact H |].
    apply Qle_bool_iff in H. congruence.
Qed.

Lemma Qlt_bool_false (a b : Q) : Qlt_bool a b = false <-> b <= a.
Proof.
  unfold Qlt_bool. rewrite negb_false_iff. apply Qle_bool_iff.
Qed.

Lemma Qle_bool_false (a b : Q) : Qle_bool a b = false <-> b < a.
Proof.
  rewrite <- Qlt_bool_iff. unfold Qlt_bool.
  destruct (Qle_bool a b); simpl; split; congruence.
Qed.

(** Case analysis on the boolean tests of the code, with the outcome as a
    rational inequality. *)
Ltac qcase :=
  match goal with
  | |- context [Qle_bool ?a ?b] =>
      let E := fresh "E" in
      destruct (Qle_bool a b) eqn:E;
      [apply Qle_bool_iff in E | apply Qle_bool_false in E]
  | |- context [Qlt_bool ?a ?b] =>
      let E := fresh "E" in
      destruct (Qlt_bool a b) eqn:E;
      [apply Qlt_bool_iff in E | apply Qlt_bool_false in E]
  end.

(** Replaces every [Qmin] and [Qmax] by a variable with its
    characterisation, for [lra]. *)
Ltac minmax :=
  repeat match goal with
    | |- context [Qmin ?a ?b] =>
        let H := fresh "Hmin" in let m := fresh "m" in
        pose proof (Q.min_spec a b) as H;
        set (m := Qmin a b) in *; clearbody m
    | |- context [Qmax ?a ?b] =>
        let H := fresh "Hmax" in let m := fresh "m" in
        pose proof (Q.max_spec a b) as H;
        set (m := Qmax a b) in *; clearbody m
    | H0 : context [Qmin ?a ?b] |- _ =>
        let H := fresh "Hmin" in let m := fresh "m" in
        pose proof (Q.min_spec a b) as H;
        set (m := Qmin a b) in *; clearbody m
    | H0 : context [Qmax ?a ?b] |- _ =>
        let H := fresh "Hmax" in let m := fresh "m" in
        pose proof (Q.max_spec a b) as H;
        set (m := Qmax a b) in *; clearbody m
    end.

Lemma fold_left_Qplus_acc (xs : list Q) (acc : Q) :
  fold_left Qplus xs acc == acc + sum_Q xs.
Proof.
  unfold sum_Q. revert acc.
  induction xs as [| x xs IH]; intro acc; simpl.
  - ring.
  - rewrite (IH (acc + x)), (IH (0 + x)). ring.
Qed.

Lemma sum_Q_cons (x : Q) (xs : list Q) : sum_Q (x :: xs) == x + sum_Q xs.
Proof.
  unfold sum_Q at 1. simpl. rewrite fold_left_Qplus_acc. ring.
Qed.

Lemma sum_Q_app (xs ys : list Q) : sum_Q (xs ++ ys) == sum_Q xs + sum_Q ys.
Proof.
  induction xs as [| x xs IH]; simpl.
  - unfold sum_Q at 2. simpl. ring.
  - rewrite !sum_Q_cons, IH. ring.
Qed.

Lemma sum_Q_repeat_0 (n : nat) : sum_Q (repeat 0 n) == 0.
Proof.
  induction n as [| n IH]; simpl.
  - reflexivity.
  - rewrite sum_Q_cons, IH. ring.
Qed.

Lemma head_only_length (d : list Q) : head_only d -> length d = cycle_days.
Proof. intros [a ->]. reflexivity. Qed.

Lemma head_only_add (d : list Q) (x : Q) :
  head_only d -> head_only (deque_add_head d x).
Proof. intros [a ->]. exists (a + x). reflexivity. Qed.

Lemma head_only_append (d : list Q) :
  head_only d -> deque_append cycle_days d 0 = repeat 0 cycle_days.
Proof. intros [a ->]. reflexivity. Qed.

Lemma head_only_zeros : head_only (repeat 0 cycle_days).
Proof. exists 0. reflexivity. Qed.

Lemma sum_Q_add_head (d : list Q) (x : Q) :
  head_only d -> sum_Q (deque_add_head d x) == sum_Q d + x.
Proof.
  intros [a ->]. unfold deque_add_head. rewrite !sum_Q_cons. ring.
Qed.

(** ** The primitive steps of the simulator *)

Ltac st_simpl :=
  cbn [trace current_day_driving current_day_duty hours_since_break
       cycle_hours_used current_day distance_since_fuel pickup_done
       current_location daily_duty_hours remaining_segment_hours
       remaining_coords] in *.

Section Steps.

Variable g : Q -> Q -> Q -> Q -> option Q.

Lemma grows_refl (st : sim_state) : grows st st.
Proof. split; intros; try reflexivity; try lra; assumption. Qed.

Lemma break_check_grows (i : Z) (st : sim_state) :
  grows st (break_check i st).
Proof.
  unfold break_check. qcase; st_simpl.
  - split; st_simpl; try reflexivity.
    + apply head_only_add.
    + unfold required_break_duration_hours. lra.
    + intro Hw. unfold total_cycle_hours. st_simpl.
      rewrite (sum_Q_add_head _ _ Hw).
      unfold required_break_duration_hours. lra.
  - apply grows_refl.
Qed.

Lemma fuel_check_grows (i : Z) (st : sim_state) :
  grows st (fuel_check g i st).
Proof.
  unfold fuel_check.
  destruct (remaining_coords st) eqn:Hc.
  - apply grows_refl.
  - qcase.
    + split; st_simpl; try reflexivity.
      * apply head_only_add.
      * unfold fuel_duration_hours. lra.
      * intro Hw. unfold total_cycle_hours. st_simpl.
        rewrite (sum_Q_add_head _ _ Hw).
        unfold fuel_duration_hours. lra.
    + apply grows_refl.
Qed.

Lemma take_restart_fresh (i : Z) (st : sim_state) :
  fresh (take_restart i st) /\
  head_only (daily_duty_hours (take_restart i st)).
Proof.
  unfold fresh, total_cycle_hours, take_restart. st_simpl.
  rewrite sum_Q_repeat_0.
  repeat split; try reflexivity. apply head_only_zeros.
Qed.

Lemma take_rest_fresh (i : Z) (st : sim_state) :
  head_only (daily_duty_hours st) ->
  fresh (take_rest i st) /\ head_only (daily_duty_hours (take_rest i st)).
Proof.
  intro Hw. unfold fresh, total_cycle_hours, take_rest. st_simpl.
  rewrite (head_only_append _ Hw), sum_Q_repeat_0.
  repeat split; try reflexivity. apply head_only_zeros.
Qed.

Lemma drive_total (i : Z) (speed a : Q) (st : sim_state) :
  head_only (daily_duty_hours st) ->
  total_cycle_hours (drive g i speed a st) == total_cycle_hours st + a.
Proof.
  intro Hw. unfold total_cycle_hours, drive. st_simpl.
  apply sum_Q_add_head, Hw.
Qed.

Lemma drive_window (i : Z) (speed a : Q) (st : sim_state) :
  head_only (daily_duty_hours st) ->
  head_only (daily_duty_hours (drive g i speed a st)).
Proof. apply head_only_add. Qed.

Lemma capped_grows (st st' : sim_state) :
  head_only (daily_duty_hours st) ->
  grows st st' -> capped st -> capped st'.
Proof.
  intros Hw G [H | [H | H]]; unfold capped.
  - left. rewrite (grows_driving _ _ G). exact H.
  - right. left. pose proof (grows_duty _ _ G). lra.
  - right. right. pose proof (grows_total _ _ G Hw). lra.
Qed.

Lemma capped_available (st : sim_state) :
  capped st -> available_day_driving st <= 0.
Proof.
  unfold capped, available_day_driving, remaining_cycle_hours,
    max_daily_driving_hours, max_daily_duty_hours, max_cycle_hours.
  intro H. minmax. lra.
Qed.

(** The window keeps its shape through an iteration. *)
Lemma while_body_window (i : Z) (speed : Q) (st : sim_state) :
  head_only (daily_duty_hours st) ->
  head_only (daily_duty_hours (while_body g i speed st)).
Proof.
  intro Hw. unfold while_body.
  pose proof (grows_window _ _ (break_check_grows i st) Hw) as Hw1.
  repeat qcase.
  - apply take_restart_fresh.
  - apply take_rest_fresh, Hw1.
  - apply (grows_window _ _ (fuel_check_grows _ _)), drive_window, Hw1.
Qed.

(** An iteration from a capped state rests and leaves the leg hours. *)
Lemma while_body_capped (i : Z) (speed : Q) (st : sim_state) :
  head_only (daily_duty_hours st) -> capped st ->
  fresh (while_body g i speed st) /\
  remaining_segment_hours (while_body g i speed st)
    = remaining_segment_hours st /\
  (current_day st < current_day (while_body g i speed st))%Z.
Proof.
  intros Hw Hc. unfold while_body.
  pose proof (break_check_grows i st) as G.
  pose proof (grows_window _ _ G Hw) as Hw1.
  pose proof (capped_available _ (capped_grows _ _ Hw G Hc)) as Ha.
  apply Qle_bool_iff in Ha. rewrite Ha.
  rewrite <- (grows_hours _ _ G), <- (grows_day _ _ G).
  qcase.
  - split; [apply take_restart_fresh |]. unfold take_restart. st_simpl.
    split; [reflexivity | lia].
  - split; [apply take_rest_fresh, Hw1 |]. unfold take_rest. st_simpl.
    split; [reflexivity | lia].
Qed.

(** Any iteration with hours left to drive ends the leg, or resets the
    counters, or reaches a cap, and never adds leg hours. *)
Lemma while_body_progress (i : Z) (speed : Q) (st : sim_state) :
  head_only (daily_duty_hours st) ->
  0 < remaining_segment_hours st ->
  let st' := while_body g i speed st in
  (fresh st' /\ remaining_segment_hours st' = remaining_segment_hours st) \/
  remaining_segment_hours st' <= 0 \/
  (capped st' /\ remaining_segment_hours st' <= remaining_segment_hours st).
Proof.
  intros Hw Hrem. cbv zeta. unfold while_body.
  pose proof (break_check_grows i st) as G.
  pose proof (grows_window _ _ G Hw) as Hw1.
  set (st1 := break_check i st) in *.
  destruct (Qle_bool (available_day_driving st1) 0) eqn:Ea.
  - left. rewrite <- (grows_hours _ _ G). qcase.
    + split; [apply take_restart_fresh | reflexivity].
    + split; [apply take_rest_fresh, Hw1 | reflexivity].
  - right. apply Qle_bool_false in Ea.
    set (a := available_day_driving st1) in *.
    pose proof (fuel_check_grows i (drive g i speed a st1)) as G2.
    pose proof (drive_window i speed a st1 Hw1) as Hw2.
    rewrite (grows_hours _ _ G2).
    assert (Hcase :
      remaining_segment_hours (drive g i speed a st1) <= 0 \/
      (capped (drive g i speed a st1) /\
       remaining_segment_hours (drive g i speed a st1)
         <= remaining_segment_hours st)).
    { unfold capped. rewrite (drive_total i speed a st1 Hw1).
      unfold drive. st_simpl.
      rewrite <- (grows_hours _ _ G).
      subst a. unfold available_day_driving, remaining_cycle_hours,
        max_daily_driving_hours, max_daily_duty_hours, max_cycle_hours in *.
      minmax. lra. }
    destruct Hcase as [H | [H1 H2]]; [left; exact H | right].
    split; [| exact H2]. exact (capped_grows _ _ Hw2 G2 H1).
Qed.

(** From a fresh state a stint is granted: the rest of the leg, or the
    full 11 hours of a day. *)
Lemma while_body_fresh (i : Z) (speed : Q) (st : sim_state) :
  head_only (daily_duty_hours st) -> fresh st ->
  0 < remaining_segment_hours st ->
  let st' := while_body g i speed st in
  remaining_segment_hours st' <= 0 \/
  (capped st' /\
   remaining_segment_hours st'
     <= remaining_segment_hours st - max_daily_driving_hours).
Proof.
  intros Hw (Hd & Hu & Hb & Ht) Hrem. cbv zeta.
  unfold while_body.
  assert (Hbc : break_check i st = st).
  { unfold break_check. qcase; [| reflexivity].
    unfold required_break_after_hours in *. lra. }
  rewrite Hbc.
  set (a := available_day_driving st).
  assert (Ha : 0 < a /\ (a == remaining_segment_hours st \/
                         (a == max_daily_driving_hours /\
                          a <= remaining_segment_hours st))).
  { subst a. unfold available_day_driving, remaining_cycle_hours,
      max_daily_driving_hours, max_daily_duty_hours, max_cycle_hours in *.
    minmax. lra. }
  destruct Ha as [Hpos Ha].
  apply Qle_bool_false in Hpos. rewrite Hpos.
  pose proof (fuel_check_grows i (drive g i speed a st)) as G2.
  pose proof (drive_window i speed a st Hw) as Hw2.
  rewrite (grows_hours _ _ G2).
  destruct Ha as [Ha | [Ha Hle]].
  - left. unfold drive. st_simpl. lra.
  - right. split.
    + apply (capped_grows _ _ Hw2 G2). left.
      unfold drive. st_simpl. lra.
    + unfold drive. st_simpl. lra.
Qed.

End Steps.

(** ** Termination of the driving loop *)

Section Termination.

Variable g : Q -> Q -> Q -> Q -> option Q.

Lemma while_loop_eq (fuel : nat) (i : Z) (speed : Q) (st : sim_state) :
  while_loop g fuel i speed st =
  if Qlt_bool 0 (remaining_segment_hours st) then
    match fuel with
    | O => None
    | S fuel' => while_loop g fuel' i speed (while_body g i speed st)
    end
  else Some st.
Proof. destruct fuel; reflexivity. Qed.

Lemma while_loop_done (fuel : nat) (i : Z) (speed : Q) (st : sim_state) :
  remaining_segment_hours st <= 0 ->
  while_loop g fuel i speed st = Some st.
Proof.
  intro H. rewrite while_loop_eq.
  apply Qlt_bool_false in H. rewrite H. reflexivity.
Qed.

Lemma while_loop_step (fuel : nat) (i : Z) (speed : Q) (st : sim_state) :
  0 < remaining_segment_hours st ->
  while_loop g (S fuel) i speed st
    = while_loop g fuel i speed (while_body g i speed st).
Proof.
  intro H. rewrite while_loop_eq.
  apply Qlt_bool_iff in H. rewrite H. reflexivity.
Qed.

(** A loop invariant holds of the state the loop returns, and the loop
    returns only with no hours left. *)
Lemma while_loop_invariant (P : sim_state -> Prop) (i : Z) (speed : Q) :
  (forall st, P st -> 0 < remaining_segment_hours st ->
              P (while_body g i speed st)) ->
  forall fuel st st',
    P st -> while_loop g fuel i speed st = Some st' ->
    P st' /\ remaining_segment_hours st' <= 0.
Proof.
  intros Hstep fuel.
  induction fuel as [| fuel IH]; intros st st' HP Hrun;
    rewrite while_loop_eq in Hrun;
    destruct (Qlt_bool 0 (remaining_segment_hours st)) eqn:E.
  - discriminate.
  - apply Qlt_bool_false in E. injection Hrun as <-. auto.
  - apply Qlt_bool_iff in E. eapply IH; [| exact Hrun]. auto.
  - apply Qlt_bool_false in E. injection Hrun as <-. auto.
Qed.

Lemma day_hours_S (n : nat) :
  day_hours (S n) == day_hours n + max_daily_driving_hours.
Proof.
  unfold day_hours. rewrite Nat2Z.inj_succ, <- Z.add_1_r, inject_Z_plus.
  ring.
Qed.

Lemma while_loop_from_fresh (i : Z) (speed : Q) :
  forall n fuel st,
    head_only (daily_duty_hours st) -> fresh st ->
    remaining_segment_hours st <= day_hours n ->
    (2 * n <= fuel)%nat ->
    exists st', while_loop g fuel i speed st = Some st'.
Proof.
  induction n as [| n IH]; intros fuel st Hw Hf Hrem Hfuel.
  - exists st. apply while_loop_done.
    unfold day_hours in Hrem.
    change (inject_Z (Z.of_nat 0)) with 0 in Hrem. lra.
  - destruct (Qlt_le_dec 0 (remaining_segment_hours st)) as [Hpos | Hle];
      [| exists st; apply while_loop_done, Hle].
    destruct fuel as [| [| fuel]]; [lia | lia |].
    rewrite (while_loop_step _ _ _ _ Hpos).
    pose proof (while_body_window g i speed st Hw) as Hw1.
    destruct (while_body_fresh g i speed st Hw Hf Hpos) as [Hdone | [Hc Hle]].
    + eexists. apply while_loop_done, Hdone.
    + set (st1 := while_body g i speed st) in *.
      destruct (Qlt_le_dec 0 (remaining_segment_hours st1)) as [Hpos1 | Hle1];
        [| exists st1; apply while_loop_done, Hle1].
      rewrite (while_loop_step _ _ _ _ Hpos1).
      destruct (while_body_capped g i speed st1 Hw1 Hc) as (Hf2 & Hr2 & _).
      apply IH.
      * apply while_body_window, Hw1.
      * exact Hf2.
      * rewrite Hr2. rewrite day_hours_S in Hrem. lra.
      * lia.
Qed.

Lemma while_loop_terminates (i : Z) (speed : Q) :
  forall n fuel st,
    head_only (daily_duty_hours st) ->
    remaining_segment_hours st <= day_hours n ->
    (2 * n + 2 <= fuel)%nat ->
    exists st', while_loop g fuel i speed st = Some st'.
Proof.
  intros n fuel st Hw Hrem Hfuel.
  destruct (Qlt_le_dec 0 (remaining_segment_hours st)) as [Hpos | Hle];
    [| exists st; apply while_loop_done, Hle].
  destruct fuel as [| [| fuel]]; [lia | lia |].
  rewrite (while_loop_step _ _ _ _ Hpos).
  pose proof (while_body_window g i speed st Hw) as Hw1.
  destruct (while_body_progress g i speed st Hw Hpos)
    as [[Hf Hr] | [Hdone | [Hc Hle]]].
  - apply (while_loop_from_fresh i speed n); auto; [rewrite Hr; exact Hrem | lia].
  - eexists. apply while_loop_done, Hdone.
  - set (st1 := while_body g i speed st) in *.
    destruct (Qlt_le_dec 0 (remaining_segment_hours st1)) as [Hpos1 | Hle1];
      [| exists st1; apply while_loop_done, Hle1].
    rewrite (while_loop_step _ _ _ _ Hpos1).
    destruct (while_body_capped g i speed st1 Hw1 Hc) as (Hf2 & Hr2 & _).
    apply (while_loop_from_fresh i speed n).
    + apply while_body_window, Hw1.
    + exact Hf2.
    + rewrite Hr2. lra.
    + lia.
Qed.

Lemma loop_bound_covers (segment : Segment.t) :
  Segment.duration_hours segment
    <= day_hours (Z.to_nat (Qceiling (Segment.duration_hours segment
                                      / max_daily_driving_hours))).
Proof.
  set (d := Segment.duration_hours segment).
  destruct (Qlt_le_dec 0 d) as [Hpos | Hle].
  - pose proof (Qle_ceiling (d / max_daily_driving_hours)) as Hc.
    assert (Hx : 0 < d / max_daily_driving_hours).
    { apply Qlt_shift_div_l; unfold max_daily_driving_hours; lra. }
    assert (Hz : (0 < Qceiling (d / max_daily_driving_hours))%Z).
    { rewrite Zlt_Qlt. eapply Qlt_le_trans; [exact Hx | exact Hc]. }
    unfold day_hours. rewrite Z2Nat.id by lia.
    assert (Hd : d == max_daily_driving_hours * (d / max_daily_driving_hours)).
    { unfold max_daily_driving_hours. field. }
    rewrite Hd at 1. apply Qmult_le_l; [reflexivity | exact Hc].
  - unfold day_hours. eapply Qle_trans; [exact Hle |].
    apply Qmult_le_0_compat; [discriminate |].
    change 0 with (inject_Z 0). rewrite <- Zle_Qle. lia.
Qed.

End Termination.

(** ** Whole runs *)

Section Runs.

Variable g : Q -> Q -> Q -> Q -> option Q.

(** Invariants of the two nested loops.  [P done st] is stated between
    legs, [done] being the legs already driven; [Pin done segment st] is
    the invariant of the [while] loop of [segment]. *)
Lemma run_segments_invariant
    (P : list Segment.t -> sim_state -> Prop)
    (Pin : list Segment.t -> Segment.t -> sim_state -> Prop)
    (pickup_location_index : Z) :
  (forall done segment st,
      P done st ->
      Pin done segment
        (pickup (Z.of_nat (length done)) pickup_location_index
                (enter_segment segment st))) ->
  (forall done segment st,
      Pin done segment st -> 0 < remaining_segment_hours st ->
      Pin done segment
        (while_body g (Z.of_nat (length done)) (speed_of segment) st)) ->
  (forall done segment st,
      Pin done segment st -> remaining_segment_hours st <= 0 ->
      P (done ++ [segment]) st) ->
  forall fuel rest done st st',
    P done st ->
    run_segments g fuel pickup_location_index (Z.of_nat (length done))
                 rest st = Some st' ->
    P (done ++ rest) st'.
Proof.
  intros Henter Hbody Hexit fuel rest.
  induction rest as [| segment rest IH]; intros done st st' HP Hrun.
  - simpl in Hrun. injection Hrun as <-. rewrite app_nil_r. exact HP.
  - simpl in Hrun. unfold run_segment in Hrun.
    destruct (while_loop g fuel (Z.of_nat (length done)) (speed_of segment)
                (pickup (Z.of_nat (length done)) pickup_location_index
                        (enter_segment segment st))) as [st1 |] eqn:Hloop;
      [| discriminate].
    apply (while_loop_invariant g (Pin done segment)) in Hloop;
      [| intros; apply Hbody; assumption | apply Henter, HP].
    destruct Hloop as [HPin Hrem].
    replace (done ++ segment :: rest) with ((done ++ [segment]) ++ rest)
      by (rewrite <- app_assoc; reflexivity).
    apply (IH (done ++ [segment]) st1 st').
    + apply (Hexit _ _ _ HPin Hrem).
    + rewrite length_app, Nat2Z.inj_add. exact Hrun.
Qed.

Lemma enter_segment_window (segment : Segment.t) (st : sim_state) :
  daily_duty_hours (enter_segment segment st) = daily_duty_hours st.
Proof. reflexivity. Qed.

Lemma pickup_window (i idx : Z) (st : sim_state) :
  head_only (daily_duty_hours st) ->
  head_only (daily_duty_hours (pickup i idx st)).
Proof.
  intro Hw. unfold pickup.
  destruct ((i =? idx)%Z && negb (pickup_done st)); [| exact Hw].
  st_simpl. apply head_only_add, Hw.
Qed.

Lemma initial_state_window (initial_hours_used : Q) :
  head_only (daily_duty_hours (initial_state initial_hours_used)).
Proof. exists initial_hours_used. reflexivity. Qed.

(** The deque keeps its shape over whole runs. *)
Lemma run_segments_window (fuel : nat) (idx : Z) :
  forall rest (done : list Segment.t) st st',
    head_only (daily_duty_hours st) ->
    run_segments g fuel idx (Z.of_nat (length done)) rest st = Some st' ->
    head_only (daily_duty_hours st').
Proof.
  intros rest done st st' Hw Hrun.
  apply (run_segments_invariant
           (fun _ s => head_only (daily_duty_hours s))
           (fun _ _ s => head_only (daily_duty_hours s)) idx)
    with (fuel := fuel) (rest := rest) (done := done) (st := st);
    auto.
  - intros. apply pickup_window. assumption.
  - intros. apply while_body_window. assumption.
Qed.

Lemma run_segments_total (fuel : nat) (idx : Z) :
  forall rest i st,
    head_only (daily_duty_hours st) ->
    Forall (fun segment => (loop_bound segment <= fuel)%nat) rest ->
    exists st', run_segments g fuel idx i rest st = Some st' /\
                head_only (daily_duty_hours st').
Proof.
  induction rest as [| segment rest IH]; intros i st Hw Hfuel.
  - exists st. split; [reflexivity | exact Hw].
  - inversion Hfuel as [| ? ? Hb Hrest]; subst.
    simpl. unfold run_segment.
    set (st0 := pickup i idx (enter_segment segment st)).
    assert (Hw0 : head_only (daily_duty_hours st0))
      by (apply pickup_window; exact Hw).
    destruct (while_loop_terminates g i (speed_of segment)
                (Z.to_nat (Qceiling (Segment.duration_hours segment
                                     / max_daily_driving_hours)))
                fuel st0 Hw0) as [st1 Hloop].
    + subst st0. unfold pickup.
      destruct ((i =? idx)%Z && negb (pickup_done (enter_segment segment st)));
        st_simpl; apply loop_bound_covers.
    + unfold loop_bound in Hb. lia.
    + rewrite Hloop. apply IH; [| exact Hrest].
      apply (while_loop_invariant g
               (fun s => head_only (daily_duty_hours s)) i (speed_of segment))
        with (fuel := fuel) (st := st0); auto.
      intros. apply while_body_window. assumption.
Qed.

Lemma enough_fuel_covers (route_segments : list Segment.t) :
  Forall (fun segment => (loop_bound segment <= enough_fuel route_segments)%nat)
         route_segments.
Proof.
  induction route_segments as [| segment rest IH]; constructor.
  - simpl. lia.
  - simpl. eapply Forall_impl; [| exact IH].
    intros s Hs. simpl in Hs. lia.
Qed.

(** The simulation returns for every input. *)
Lemma simulate_total (route_segments : list Segment.t)
    (initial_hours_used : Q) (idx : Z) :
  exists st,
    simulate g (enough_fuel route_segments) route_segments
             initial_hours_used idx = Some st.
Proof.
  unfold simulate.
  destruct (run_segments_total (enough_fuel route_segments) idx
              route_segments 0%Z (initial_state initial_hours_used)
              (initial_state_window _) (enough_fuel_covers _))
    as (st & Hrun & _).
  rewrite Hrun. eexists. reflexivity.
Qed.

Lemma calculate_route_schedule_some (route_segments : list Segment.t)
    (initial_hours_used : Q) (idx : Z) (st : sim_state) :
  simulate g (enough_fuel route_segments) route_segments
           initial_hours_used idx = Some st ->
  calculate_route_trace g route_segments initial_hours_used idx
    = Some (trace st) /\
  calculate_route_schedule g route_segments initial_hours_used idx
    = Some (schedule_of st).
Proof.
  intro H. unfold calculate_route_schedule, calculate_route_trace.
  rewrite H. split; reflexivity.
Qed.

End Runs.

(** ** The schedule does not depend on the geometry *)

Section Lockstep.

Variables g1 g2 : Q -> Q -> Q -> Q -> option Q.

Lemma same_timing_refl (st : sim_state) : same_timing st st.
Proof. split; reflexivity. Qed.

Lemma emit_timing (e1 e2 : event) (s1 s2 : sim_state) :
  timing e1 = timing e2 -> same_timing s1 s2 ->
  map timed (emit e1 s1) = map timed (emit e2 s2).
Proof.
  intros He H. unfold emit. rewrite !map_app, (same_trace _ _ H).
  cbn [map]. unfold timed. cbn [fst snd].
  rewrite He, (same_window _ _ H). reflexivity.
Qed.

Lemma keep_if_empty_cons (updated remaining : list point) :
  remaining <> [] -> keep_if_empty updated remaining <> [].
Proof. unfold keep_if_empty. destruct updated; [auto | discriminate]. Qed.

Lemma advance_coords_nil (g : Q -> Q -> Q -> Q -> option Q) (d : Q)
    (st : sim_state) :
  snd (advance_location g d st) = [] <-> remaining_coords st = [].
Proof.
  unfold advance_location.
  destruct (remaining_coords st) as [| p [| q r]]; cbn [snd]; try tauto.
  split; [| discriminate]. intro H.
  exfalso. revert H. apply keep_if_empty_cons. discriminate.
Qed.

Lemma same_timing_available (s1 s2 : sim_state) :
  same_timing s1 s2 ->
  available_day_driving s1 = available_day_driving s2 /\
  remaining_cycle_hours s1 = remaining_cycle_hours s2 /\
  total_cycle_hours s1 = total_cycle_hours s2.
Proof.
  intro H.
  unfold available_day_driving, remaining_cycle_hours, total_cycle_hours.
  rewrite (same_driving _ _ H), (same_duty _ _ H), (same_window _ _ H),
    (same_hours _ _ H).
  repeat split.
Qed.

Lemma enter_segment_timing (segment : Segment.t) (s1 s2 : sim_state) :
  same_timing s1 s2 ->
  same_timing (enter_segment segment s1) (enter_segment segment s2).
Proof.
  intro H. destruct H. split; unfold enter_segment; st_simpl;
    try assumption; reflexivity.
Qed.

Lemma pickup_timing (i idx : Z) (s1 s2 : sim_state) :
  same_timing s1 s2 -> same_timing (pickup i idx s1) (pickup i idx s2).
Proof.
  intro H. unfold pickup. rewrite <- (same_pickup _ _ H).
  destruct ((i =? idx)%Z && negb (pickup_done s1)); [| exact H].
  split; st_simpl; try (destruct H; congruence).
  apply emit_timing; [| exact H]. unfold timing; cbn.
  destruct H; congruence.
Qed.

Lemma break_check_timing (i : Z) (s1 s2 : sim_state) :
  same_timing s1 s2 -> same_timing (break_check i s1) (break_check i s2).
Proof.
  intro H. unfold break_check. rewrite <- (same_break _ _ H).
  destruct (Qle_bool required_break_after_hours (hours_since_break s1));
    [| exact H].
  split; st_simpl; try (destruct H; congruence).
  apply emit_timing; [| exact H]. unfold timing; cbn.
  destruct H; congruence.
Qed.

Lemma take_restart_timing (i : Z) (s1 s2 : sim_state) :
  same_timing s1 s2 -> same_timing (take_restart i s1) (take_restart i s2).
Proof.
  intro H. split; unfold take_restart; st_simpl;
    try (destruct H; congruence).
  apply emit_timing; [| exact H]. unfold timing; cbn.
  destruct H; congruence.
Qed.

Lemma take_rest_timing (i : Z) (s1 s2 : sim_state) :
  same_timing s1 s2 -> same_timing (take_rest i s1) (take_rest i s2).
Proof.
  intro H. split; unfold take_rest; st_simpl;
    try (destruct H; congruence).
  apply emit_timing; [| exact H]. unfold timing; cbn.
  destruct H; congruence.
Qed.

Lemma drive_timing (i : Z) (speed a : Q) (s1 s2 : sim_state) :
  same_timing s1 s2 ->
  same_timing (drive g1 i speed a s1) (drive g2 i speed a s2).
Proof.
  intro H. destruct (same_timing_available _ _ H) as (_ & _ & Ht).
  split; unfold drive; st_simpl; try (destruct H; congruence).
  - apply emit_timing; [| exact H]. unfold timing; cbn.
    rewrite Ht. destruct H; congruence.
  - rewrite !advance_coords_nil. apply (same_coords _ _ H).
Qed.

Lemma fuel_check_timing (i : Z) (s1 s2 : sim_state) :
  same_timing s1 s2 ->
  same_timing (fuel_check g1 i s1) (fuel_check g2 i s2).
Proof.
  intro H. unfold fuel_check. rewrite <- (same_fuel _ _ H).
  pose proof (same_coords _ _ H) as Hc.
  destruct (remaining_coords s1) as [| p1 r1] eqn:E1;
    destruct (remaining_coords s2) as [| p2 r2] eqn:E2.
  - exact H.
  - destruct Hc as [Hc _]. discriminate (Hc eq_refl).
  - destruct Hc as [_ Hc]. discriminate (Hc eq_refl).
  - destruct (Qle_bool fuel_distance_miles (distance_since_fuel s1));
      [| exact H].
    split; st_simpl; try (destruct H; congruence).
    + apply emit_timing; [| exact H]. unfold timing; cbn.
      destruct H; congruence.
    + split; intro K; exfalso; revert K; apply keep_if_empty_cons;
        discriminate.
Qed.

Lemma while_body_timing (i : Z) (speed : Q) (s1 s2 : sim_state) :
  same_timing s1 s2 ->
  same_timing (while_body g1 i speed s1) (while_body g2 i speed s2).
Proof.
  intro H. unfold while_body.
  pose proof (break_check_timing i _ _ H) as H1.
  destruct (same_timing_available _ _ H1) as (Ha & Hr & _).
  rewrite <- Ha, <- Hr.
  destruct (Qle_bool (available_day_driving (break_check i s1)) 0).
  - destruct (Qle_bool (remaining_cycle_hours (break_check i s1)) 0).
    + apply take_restart_timing, H1.
    + apply take_rest_timing, H1.
  - apply fuel_check_timing, drive_timing, H1.
Qed.

Lemma while_loop_timing (i : Z) (speed : Q) :
  forall fuel s1 s2 r1,
    same_timing s1 s2 ->
    while_loop g1 fuel i speed s1 = Some r1 ->
    exists r2, while_loop g2 fuel i speed s2 = Some r2 /\ same_timing r1 r2.
Proof.
  induction fuel as [| fuel IH]; intros s1 s2 r1 H Hrun;
    rewrite while_loop_eq in Hrun; rewrite while_loop_eq;
    rewrite <- (same_hours _ _ H);
    destruct (Qlt_bool 0 (remaining_segment_hours s1)).
  - discriminate.
  - injection Hrun as <-. exists s2. split; [reflexivity | exact H].
  - apply (IH _ (while_body g2 i speed s2)) in Hrun;
      [exact Hrun | apply while_body_timing, H].
  - injection Hrun as <-. exists s2. split; [reflexivity | exact H].
Qed.

Lemma run_segments_timing (fuel : nat) (idx : Z) :
  forall rest i s1 s2 r1,
    same_timing s1 s2 ->
    run_segments g1 fuel idx i rest s1 = Some r1 ->
    exists r2, run_segments g2 fuel idx i rest s2 = Some r2 /\
               same_timing r1 r2.
Proof.
  induction rest as [| segment rest IH]; intros i s1 s2 r1 H Hrun.
  - injection Hrun as <-. exists s2. split; [reflexivity | exact H].
  - cbn [run_segments] in *. unfold run_segment in *.
    destruct (while_loop g1 fuel i (speed_of segment)
                (pickup i idx (enter_segment segment s1))) as [m1 |] eqn:E;
      [| discriminate].
    destruct (while_loop_timing i (speed_of segment) fuel _
                (pickup i idx (enter_segment segment s2)) m1
                (pickup_timing i idx _ _ (enter_segment_timing segment _ _ H))
                E) as (m2 & E2 & Hm).
    rewrite E2. apply (IH _ _ _ _ Hm Hrun).
Qed.

Lemma dropoff_timing (route_segments : list Segment.t) (s1 s2 : sim_state) :
  same_timing s1 s2 ->
  same_timing (dropoff route_segments s1) (dropoff route_segments s2).
Proof.
  intro H. unfold dropoff. destruct route_segments as [| s0 rest]; [exact H |].
  split; st_simpl; try (destruct H; congruence).
  apply emit_timing; [| exact H]. unfold timing; cbn.
  destruct H; congruence.
Qed.

(** Whatever the distance function, the run returns the same events up to
    their coordinates, with the same snapshots of the deque. *)
Lemma calculate_route_trace_timing (route_segments : list Segment.t)
    (initial_hours_used : Q) (idx : Z) (t1 : list (event * list Q)) :
  calculate_route_trace g1 route_segments initial_hours_used idx = Some t1 ->
  exists t2,
    calculate_route_trace g2 route_segments initial_hours_used idx = Some t2 /\
    map timed t1 = map timed t2.
Proof.
  unfold calculate_route_trace, simulate. intro H1.
  destruct (run_segments g1 (enough_fuel route_segments) idx 0 route_segments
              (initial_state initial_hours_used)) as [r1 |] eqn:E;
    [| discriminate].
  destruct (run_segments_timing _ idx _ _ _ _ r1
              (same_timing_refl (initial_state initial_hours_used)) E)
    as (r2 & E2 & Hr).
  rewrite E2. cbn [option_map] in *. injection H1 as <-.
  eexists. split; [reflexivity |].
  apply (same_trace _ _ (dropoff_timing route_segments _ _ Hr)).
Qed.

End Lockstep.

(** ** Running the simulator on given legs *)

Lemma timed_schedule (t t0 : list (event * list Q)) :
  map timed t = map timed t0 ->
  map timing (map fst t) = map timing (map fst t0).
Proof.
  intro H. rewrite !map_map.
  change (fun x : event * list Q => timing (fst x))
    with (fun x : event * list Q => fst (timed x)).
  rewrite <- !(map_map timed fst), H. reflexivity.
Qed.

(** A run with the stand-in distance fixes the run with any distance, up
    to the coordinates. *)
Lemma run_with_any_distance (g : Q -> Q -> Q -> Q -> option Q)
    (route_segments : list Segment.t) (initial_hours_used : Q) (idx : Z)
    (t0 : list (event * list Q)) :
  calculate_route_trace no_distance route_segments initial_hours_used idx
    = Some t0 ->
  exists t,
    calculate_route_trace g route_segments initial_hours_used idx = Some t /\
    calculate_route_schedule g route_segments initial_hours_used idx
      = Some (map fst t) /\
    map timed t = map timed t0 /\
    map timing (map fst t) = map timing (map fst t0).
Proof.
  intro H0.
  destruct (calculate_route_trace_timing no_distance g _ _ _ _ H0)
    as (t & Ht & Heq).
  exists t. unfold calculate_route_schedule. rewrite Ht.
  repeat split; auto. symmetry. apply timed_schedule. exact Heq.
Qed.

Lemma same_event_timing (e e' : event) :
  same_event (timing e) e' -> same_event e e'.
Proof. exact (fun H => H). Qed.

Lemma same_schedule_timing (s L expected : list event) :
  map timing s = L ->
  Forall2 same_event L expected -> Forall2 same_event s expected.
Proof.
  intros <-. revert expected.
  induction s as [| e s IH]; intros expected H; inversion H; subst;
    constructor; auto.
Qed.

Lemma map_activity_timing (s : list event) :
  map activity_type (map timing s) = map activity_type s.
Proof. rewrite map_map. reflexivity. Qed.

Lemma filter_timing (f : event -> bool) (s : list event) :
  (forall e, f (timing e) = f e) ->
  filter f (map timing s) = map timing (filter f s).
Proof.
  intro Hf. induction s as [| e s IH]; [reflexivity |].
  cbn [map filter]. rewrite Hf. destruct (f e); cbn [map]; congruence.
Qed.

Lemma driven_miles_timing (s : list event) :
  driven_miles (map timing s) = driven_miles s.
Proof.
  unfold driven_miles.
  rewrite filter_timing by reflexivity. rewrite map_map. reflexivity.
Qed.

Lemma max_day_timing (s : list event) : max_day (map timing s) = max_day s.
Proof. unfold max_day. rewrite map_map. reflexivity. Qed.

Lemma duty_on_day_timing (s : list event) (d : Z) :
  duty_on_day (map timing s) d = duty_on_day s d.
Proof.
  unfold duty_on_day.
  rewrite filter_timing by reflexivity. rewrite map_map. reflexivity.
Qed.

(** Runs the stand-in distance on concrete legs and transfers the result
    to the distance [g] of the goal: leaves [Hs], the schedule of [g]
    without coordinates, and [Ht], its trace without coordinates. *)
Ltac run_legs g legs init idx :=
  let t0 := fresh "t0" in let E0 := fresh "E0" in let E1 := fresh "E1" in
  destruct (calculate_route_trace no_distance legs init idx) as [t0 |] eqn:E0;
  [ pose proof E0 as E1; vm_compute in E1; injection E1 as <-;
    let t := fresh "t" in let Hrun := fresh "Hrun" in
    let Hsched := fresh "Hsched" in
    let Ht := fresh "Ht" in let Hs := fresh "Hs" in
    destruct (run_with_any_distance g legs init idx _ E0)
      as (t & Hrun & Hsched & Ht & Hs);
    cbn [map timed timing fst snd activity_type location_index duration_hours
         day start_duty_hours end_duty_hours distance_miles
         cycle_hours_remaining restart_type] in Ht, Hs;
    clear E0
  | vm_compute in E0; discriminate E0 ].

(** ** The scenarios *)

(** C10.  For an empty leg list [calculate_route_schedule] returns the
    empty schedule (no PICKUP, no DROPOFF, no error), and
    [generate_eld_logs] turns the empty schedule into the empty list of
    daily logs. *)
Theorem empty_route_gives_empty_schedule
    (g : Q -> Q -> Q -> Q -> option Q) (initial_hours_used : Q) (idx : Z) :
  calculate_route_schedule g [] initial_hours_used idx = Some [] /\
  generate_eld_logs [] = [].
Proof. split; reflexivity. Qed.

(** C3, as the code behaves.  On scenario B (two legs of 600 miles and 11
    hours, no hours used, pickup at leg 0) the schedule is PICKUP(day 1,
    0 to 1), DRIVING(day 1, 1 to 12, 600 miles), BREAK(day 1, 12 to 12.5),
    REST(day 1, from 12.5), DRIVING(day 2, 0 to 11, 600 miles), FUEL(day 2,
    11 to 12), DROPOFF(day 2, 12 to 13); the driven distance is 1200 miles
    and the last day is day 2. *)
Theorem scenario_B_run (g : Q -> Q -> Q -> Q -> option Q) :
  exists s,
    calculate_route_schedule g scenario_B_legs 0 0 = Some s /\
    Forall2 same_event s scenario_B_schedule /\
    driven_miles s == 1200 /\
    max_day s = 2%Z.
Proof.
  run_legs g scenario_B_legs 0 0%Z.
  exists (map fst t). split; [exact Hsched |].
  rewrite <- driven_miles_timing, <- max_day_timing, Hs.
  split; [| split; reflexivity].
  apply (same_schedule_timing _ _ _ Hs).
  repeat constructor.
Qed.

(** C3, as stated, fails: whatever the distance function, the schedule of
    scenario B is not the sequence PICKUP, DRIVING, REST, DRIVING,
    DROPOFF (a BREAK precedes the REST and a FUEL precedes the
    DROPOFF). *)
Lemma scenario_B_claimed_sequence_fails :
  ~ exists g s,
      calculate_route_schedule g scenario_B_legs 0 0 = Some s /\
      map activity_type s = [PICKUP; DRIVING; REST; DRIVING; DROPOFF].
Proof.
  intros (g & s & Hrun' & Hseq).
  run_legs g scenario_B_legs 0 0%Z.
  rewrite Hsched in Hrun'. injection Hrun' as <-.
  rewrite <- map_activity_timing, Hs in Hseq. discriminate Hseq.
Qed.

(** C4, as the code behaves.  On scenario D (one leg of 100 miles and 2
    hours, 70 hours used, pickup at leg 0) the schedule is PICKUP(day 1,
    0 to 1), RESTART(day 1, 34 hours, "34-hour"), DRIVING(day 3, 0 to 2,
    100 miles), DROPOFF(day 3, 2 to 3); the driven distance is 100 miles
    and the last day is day 3. *)
Theorem scenario_D_run (g : Q -> Q -> Q -> Q -> option Q) :
  exists s,
    calculate_route_schedule g scenario_D_legs 70 0 = Some s /\
    Forall2 same_event s scenario_D_schedule /\
    driven_miles s == 100 /\
    max_day s = 3%Z.
Proof.
  run_legs g scenario_D_legs 70 0%Z.
  exists (map fst t). split; [exact Hsched |].
  rewrite <- driven_miles_timing, <- max_day_timing, Hs.
  split; [| split; reflexivity].
  apply (same_schedule_timing _ _ _ Hs).
  repeat constructor.
Qed.

(** C4, as stated, fails: whatever the distance function, the PICKUP of
    scenario D does not start at duty hour 70 (the day's duty clock
    starts at 0, the hours already used only enter the cycle window). *)
Lemma scenario_D_pickup_not_at_70 :
  ~ exists g e s,
      calculate_route_schedule g scenario_D_legs 70 0 = Some (e :: s) /\
      activity_type e = PICKUP /\
      start_duty_hours e == 70 /\ end_duty_hours e == 71.
Proof.
  intros (g & e & s & Hrun' & _ & Hstart & _).
  run_legs g scenario_D_legs 70 0%Z.
  rewrite Hsched in Hrun'. injection Hrun' as Hts. rewrite Hts in Hs.
  assert (Hzero : start_duty_hours e = 0).
  { apply (f_equal (fun l => match l with
                            | x :: _ => start_duty_hours x
                            | [] => 0
                            end)) in Hs.
    exact Hs. }
  rewrite Hzero in Hstart. discriminate Hstart.
Qed.

(** ** The rolling window *)

Lemma window_log_timed (t : list (event * list Q)) :
  window_log (map timed t) = window_log t.
Proof. unfold window_log. rewrite map_map. reflexivity. Qed.

(** C1, where the code departs from it.  [append] on the full deque
    discards index 0, the slot the code updates as today's, and puts the
    fresh zero at index 7: after a REST nothing is left of the day just
    worked.  On a leg of 1200 miles and 24 hours the stint of day 2 is
    granted against a window of eight zeros, although day 1 holds 12.5
    duty hours, and the run ends on day 3 with a window that sums to 2
    hours while days 1 to 3 hold 28. *)
Theorem rest_discards_todays_hours (g : Q -> Q -> Q -> Q -> option Q) :
  (forall a0 a1 a2 a3 a4 a5 a6 a7 : Q,
      deque_append cycle_days [a0; a1; a2; a3; a4; a5; a6; a7] 0
      = [a1; a2; a3; a4; a5; a6; a7; 0]) /\
  exists t,
    calculate_route_trace g three_day_leg 0 0 = Some t /\
    window_log t =
      [ (PICKUP, 1%Z, [0; 0; 0; 0; 0; 0; 0; 0]);
        (DRIVING, 1%Z, [1; 0; 0; 0; 0; 0; 0; 0]);
        (BREAK, 1%Z, [12; 0; 0; 0; 0; 0; 0; 0]);
        (REST, 1%Z, [25 # 2; 0; 0; 0; 0; 0; 0; 0]);
        (DRIVING, 2%Z, [0; 0; 0; 0; 0; 0; 0; 0]);
        (FUEL, 2%Z, [11; 0; 0; 0; 0; 0; 0; 0]);
        (BREAK, 2%Z, [12; 0; 0; 0; 0; 0; 0; 0]);
        (REST, 2%Z, [25 # 2; 0; 0; 0; 0; 0; 0; 0]);
        (DRIVING, 3%Z, [0; 0; 0; 0; 0; 0; 0; 0]);
        (DROPOFF, 3%Z, [2; 0; 0; 0; 0; 0; 0; 0]) ] /\
    duty_on_day (map fst t) 1 == 25 # 2 /\
    trailing_duty (map fst t) 3 == 28.
Proof.
  split; [reflexivity |].
  run_legs g three_day_leg 0 0%Z.
  exists t. split; [exact Hrun |].
  rewrite <- window_log_timed, Ht.
  assert (Hd : forall d, duty_on_day (map fst t) d
                         = duty_on_day (map timing (map fst t)) d)
    by (intro d; symmetry; apply duty_on_day_timing).
  unfold trailing_duty. cbn [map seq cycle_days].
  rewrite !Hd, Hs.
  repeat split; reflexivity.
Qed.

(** C2, as stated, fails: on two well-formed legs of 1000 miles, of 10
    hours and of 1 hour, the duty-counted hours of day 1 exceed 14
    whatever the distance function (they are 15.5: the FUEL stops and the
    DROPOFF are appended without a look at the cap). *)
Lemma duty_cap_exceeded_by_stops :
  ~ exists g s,
      calculate_route_schedule g two_fuel_legs 0 0 = Some s /\
      duty_on_day s 1 <= 14.
Proof.
  intros (g & s & Hrun' & Hle).
  run_legs g two_fuel_legs 0 0%Z.
  rewrite Hsched in Hrun'. injection Hrun' as <-.
  rewrite <- duty_on_day_timing, Hs in Hle.
  vm_compute in Hle. apply Hle. reflexivity.
Qed.

(** ** Termination *)

Lemma fresh_available (i : Z) (st : sim_state) :
  fresh st -> 0 < remaining_segment_hours st ->
  break_check i st = st /\ 0 < available_day_driving st.
Proof.
  intros (Hd & Hu & Hb & Ht) Hrem. split.
  - unfold break_check. qcase; [| reflexivity].
    unfold required_break_after_hours in *. lra.
  - unfold available_day_driving, remaining_cycle_hours,
      max_daily_driving_hours, max_daily_duty_hours, max_cycle_hours in *.
    minmax. lra.
Qed.

Lemma while_body_rest_branch (g : Q -> Q -> Q -> Q -> option Q) (i : Z)
    (speed : Q) (st : sim_state) :
  head_only (daily_duty_hours st) ->
  0 < remaining_segment_hours st ->
  available_day_driving (break_check i st) <= 0 ->
  (current_day st < current_day (while_body g i speed st))%Z /\
  fresh (while_body g i speed st) /\
  remaining_segment_hours (while_body g i speed st)
    = remaining_segment_hours st /\
  0 < available_day_driving (break_check i (while_body g i speed st)).
Proof.
  intros Hw Hrem Ha.
  pose proof (break_check_grows i st) as G.
  pose proof (grows_window _ _ G Hw) as Hw1.
  assert (H : (current_day st < current_day (while_body g i speed st))%Z /\
              fresh (while_body g i speed st) /\
              remaining_segment_hours (while_body g i speed st)
                = remaining_segment_hours st).
  { unfold while_body. apply Qle_bool_iff in Ha. rewrite Ha.
    rewrite <- (grows_hours _ _ G), <- (grows_day _ _ G). qcase.
    - split; [unfold take_restart; st_simpl; lia |].
      split; [apply take_restart_fresh | reflexivity].
    - split; [unfold take_rest; st_simpl; lia |].
      split; [apply take_rest_fresh, Hw1 | reflexivity]. }
  destruct H as (Hday & Hf & Hr).
  split; [exact Hday |]. split; [exact Hf |]. split; [exact Hr |].
  rewrite <- Hr in Hrem.
  destruct (fresh_available i _ Hf Hrem) as [-> Hpos]. exact Hpos.
Qed.

Lemma while_body_drive_branch (g : Q -> Q -> Q -> Q -> option Q) (i : Z)
    (speed : Q) (st : sim_state) :
  0 < available_day_driving (break_check i st) ->
  remaining_segment_hours (while_body g i speed st)
    < remaining_segment_hours st.
Proof.
  intro Ha. unfold while_body.
  pose proof Ha as Hb. apply Qle_bool_false in Hb. rewrite Hb.
  rewrite (grows_hours _ _ (fuel_check_grows g i _)).
  unfold drive. st_simpl.
  rewrite (grows_hours _ _ (break_check_grows i st)). lra.
Qed.

(** C9.  For every well-formed leg list and every [initial_hours_used >= 0]
    the simulation returns a schedule.  In every iteration of the driving
    loop (the deque of a run always has the shape [head_only]), the REST
    or RESTART branch moves to a later day, resets the counters and leaves
    a state in which the next iteration grants a stint, and the DRIVING
    branch strictly decreases the remaining leg hours. *)
Theorem schedule_loop_terminates (g : Q -> Q -> Q -> Q -> option Q)
    (route_segments : list Segment.t) (initial_hours_used : Q) (idx : Z) :
  Forall well_formed route_segments ->
  0 <= initial_hours_used ->
  (exists s,
      calculate_route_schedule g route_segments initial_hours_used idx
      = Some s) /\
  (forall i speed st,
      head_only (daily_duty_hours st) ->
      0 < remaining_segment_hours st ->
      (available_day_driving (break_check i st) <= 0 ->
       (current_day st < current_day (while_body g i speed st))%Z /\
       fresh (while_body g i speed st) /\
       remaining_segment_hours (while_body g i speed st)
         = remaining_segment_hours st /\
       0 < available_day_driving (break_check i (while_body g i speed st))) /\
      (0 < available_day_driving (break_check i st) ->
       remaining_segment_hours (while_body g i speed st)
         < remaining_segment_hours st)).
Proof.
  intros _ _. split.
  - destruct (simulate_total g route_segments initial_hours_used idx)
      as [st Hst].
    exists (schedule_of st).
    apply (calculate_route_schedule_some g _ _ _ _ Hst).
  - intros i speed st Hw Hrem. split.
    + apply while_body_rest_branch; assumption.
    + apply while_body_drive_branch.
Qed.

Lemma schedule_loop_terminates_witness :
  Forall well_formed scenario_B_legs /\ 0 <= 0 /\
  exists s, calculate_route_schedule no_distance scenario_B_legs 0 0 = Some s.
Proof.
  assert (Hwf : Forall well_formed scenario_B_legs)
    by (repeat constructor; unfold well_formed; cbn; lra).
  assert (Hinit : 0 <= 0) by lra.
  split; [exact Hwf |]. split; [exact Hinit |].
  exact (proj1 (schedule_loop_terminates no_distance scenario_B_legs 0 0%Z
                  Hwf Hinit)).
Defined.

(** ** The 70-hour cycle *)

Lemma Forall_emit (P : event * list Q -> Prop) (e : event) (st : sim_state) :
  Forall P (trace st) -> P (e, daily_duty_hours st) -> Forall P (emit e st).
Proof.
  intros H He. unfold emit. apply Forall_app. split; [exact H |].
  constructor; [exact He | constructor].
Qed.

Section Cycle.

Variable g : Q -> Q -> Q -> Q -> option Q.

Lemma pickup_cycle_ok (i idx : Z) (st : sim_state) :
  Forall cycle_ok (trace st) -> Forall cycle_ok (trace (pickup i idx st)).
Proof.
  intro H. unfold pickup.
  destruct ((i =? idx)%Z && negb (pickup_done st)); [| exact H].
  st_simpl. apply Forall_emit; [exact H | exact I].
Qed.

Lemma break_check_cycle_ok (i : Z) (st : sim_state) :
  Forall cycle_ok (trace st) -> Forall cycle_ok (trace (break_check i st)).
Proof.
  intro H. unfold break_check. qcase; [| exact H].
  st_simpl. apply Forall_emit; [exact H | exact I].
Qed.

Lemma fuel_check_cycle_ok (i : Z) (st : sim_state) :
  Forall cycle_ok (trace st) -> Forall cycle_ok (trace (fuel_check g i st)).
Proof.
  intro H. unfold fuel_check.
  destruct (remaining_coords st); [exact H |].
  qcase; [| exact H].
  st_simpl. apply Forall_emit; [exact H | exact I].
Qed.

Lemma while_body_cycle_ok (i : Z) (speed : Q) (st : sim_state) :
  Forall cycle_ok (trace st) ->
  Forall cycle_ok (trace (while_body g i speed st)).
Proof.
  intro H. apply (break_check_cycle_ok i) in H. unfold while_body.
  set (st1 := break_check i st) in *.
  destruct (Qle_bool (available_day_driving st1) 0) eqn:Ea.
  - destruct (Qle_bool (remaining_cycle_hours st1) 0) eqn:Er.
    + unfold take_restart. st_simpl.
      apply Forall_emit; [exact H |].
      unfold cycle_ok. cbn [fst snd activity_type].
      apply Qle_bool_iff in Er.
      unfold remaining_cycle_hours, total_cycle_hours in Er.
      minmax. lra.
    + unfold take_rest. st_simpl.
      apply Forall_emit; [exact H | exact I].
  - apply fuel_check_cycle_ok. unfold drive. st_simpl.
    apply Forall_emit; [exact H |].
    apply Qle_bool_false in Ea.
    unfold cycle_ok.
    cbn [fst snd activity_type cycle_hours_remaining duration_hours].
    unfold available_day_driving, remaining_cycle_hours, total_cycle_hours
      in *.
    set (total := sum_Q (daily_duty_hours st1)) in *.
    split.
    + minmax. lra.
    + eexists. split; [reflexivity |]. split; [reflexivity |].
      minmax. lra.
Qed.

Lemma dropoff_cycle_ok (route_segments : list Segment.t) (st : sim_state) :
  Forall cycle_ok (trace st) ->
  Forall cycle_ok (trace (dropoff route_segments st)).
Proof.
  intro H. unfold dropoff. destruct route_segments; [exact H |].
  st_simpl. apply Forall_emit; [exact H | exact I].
Qed.

Lemma simulate_cycle_ok (fuel : nat) (route_segments : list Segment.t)
    (initial_hours_used : Q) (idx : Z) (st : sim_state) :
  simulate g fuel route_segments initial_hours_used idx = Some st ->
  Forall cycle_ok (trace st).
Proof.
  unfold simulate.
  destruct (run_segments g fuel idx 0 route_segments
              (initial_state initial_hours_used)) as [st1 |] eqn:E;
    [| discriminate].
  intro H. injection H as <-. apply dropoff_cycle_ok.
  apply (run_segments_invariant g
           (fun _ s => Forall cycle_ok (trace s))
           (fun _ _ s => Forall cycle_ok (trace s)) idx)
    with (fuel := fuel) (rest := route_segments) (done := [])
         (st := initial_state initial_hours_used).
  - intros. apply pickup_cycle_ok. assumption.
  - intros. apply while_body_cycle_ok. assumption.
  - auto.
  - constructor.
  - exact E.
Qed.

End Cycle.

(** C5.  The simulation returns a trace in which every DRIVING event was
    granted against a window whose sum (the 8-day total the code computes,
    the stint excluded) is below 70, carries
    [cycle_hours_remaining = 70 - (total + duration_hours)], which is not
    negative, and in which every RESTART was taken against a total of 70
    or more. *)
Theorem driving_only_below_cycle_cap (g : Q -> Q -> Q -> Q -> option Q)
    (route_segments : list Segment.t) (initial_hours_used : Q) (idx : Z) :
  exists t,
    calculate_route_trace g route_segments initial_hours_used idx = Some t /\
    calculate_route_schedule g route_segments initial_hours_used idx
      = Some (map fst t) /\
    Forall cycle_ok t.
Proof.
  destruct (simulate_total g route_segments initial_hours_used idx)
    as [st Hst].
  exists (trace st).
  destruct (calculate_route_schedule_some g _ _ _ _ Hst) as [Ht Hs].
  split; [exact Ht |]. split; [exact Hs |].
  apply (simulate_cycle_ok g _ _ _ _ _ Hst).
Qed.

(** ** The 14-hour duty cap *)

Lemma duty_on_day_snoc (s : list event) (e : event) (d : Z) :
  duty_on_day (s ++ [e]) d ==
  duty_on_day s d + (if on_duty_on d e then duration_hours e else 0).
Proof.
  unfold duty_on_day. rewrite filter_app, map_app, sum_Q_app.
  cbn [filter]. destruct (on_duty_on d e); cbn [map].
  - rewrite sum_Q_cons. change (sum_Q (@nil Q)) with 0. ring.
  - change (sum_Q (@nil Q)) with 0. ring.
Qed.

Lemma duty_on_day_later (s : list event) (d : Z) :
  Forall (fun e => (day e < d)%Z) s -> duty_on_day s d == 0.
Proof.
  intro H. unfold duty_on_day.
  replace (filter (on_duty_on d) s) with (@nil event); [reflexivity |].
  induction H as [| e s He _ IH]; [reflexivity |].
  cbn [filter]. unfold on_duty_on at 1.
  replace (day e =? d)%Z with false by (symmetry; apply Z.eqb_neq; lia).
  rewrite andb_false_r. exact IH.
Qed.

Lemma stints_within_cap_snoc (s : list event) (e : event) :
  stints_within_cap s ->
  (activity_type e = DRIVING ->
   duty_on_day (s ++ [e]) (day e) <= max_daily_duty_hours) ->
  stints_within_cap (s ++ [e]).
Proof.
  intros Hs He pre e0 post Heq Hdrv.
  destruct post as [| x post'] using rev_ind.
  - apply app_inj_tail in Heq. destruct Heq as [<- <-]. auto.
  - clear IHpost'.
    change (pre ++ e0 :: post' ++ [x]) with (pre ++ (e0 :: post') ++ [x])
      in Heq.
    rewrite app_assoc in Heq.
    apply app_inj_tail in Heq. destruct Heq as [Heq _].
    apply (Hs pre e0 post'); auto.
Qed.

Lemma schedule_of_emit (e : event) (st : sim_state) :
  map fst (emit e st) = schedule_of st ++ [e].
Proof. unfold emit, schedule_of. rewrite map_app. reflexivity. Qed.

(** Appending a duty-counted event of the current day. *)
Lemma day_accounted_duty (st st' : sim_state) (e : event) :
  day_accounted st ->
  schedule_of st' = schedule_of st ++ [e] ->
  current_day st' = current_day st ->
  day e = current_day st ->
  duty_counted (activity_type e) = true ->
  current_day_duty st' == current_day_duty st + duration_hours e ->
  (activity_type e = DRIVING ->
   current_day_duty st + duration_hours e <= max_daily_duty_hours) ->
  day_accounted st'.
Proof.
  intros [Hpast Hduty Hcap] Hs Hday He Hc Hd Hdrv.
  assert (Hsum : duty_on_day (schedule_of st ++ [e]) (current_day st)
                 == current_day_duty st + duration_hours e).
  { rewrite duty_on_day_snoc, Hduty. unfold on_duty_on.
    rewrite Hc, He, Z.eqb_refl. reflexivity. }
  split; rewrite ?Hs, ?Hday.
  - apply Forall_app. split; [exact Hpast |].
    constructor; [lia | constructor].
  - rewrite Hsum, Hd. reflexivity.
  - apply stints_within_cap_snoc; [exact Hcap |].
    intro H. rewrite He, Hsum. auto.
Qed.

(** Appending a REST or RESTART and moving to a later day. *)
Lemma day_accounted_rest (st st' : sim_state) (e : event) :
  day_accounted st ->
  schedule_of st' = schedule_of st ++ [e] ->
  (current_day st < current_day st')%Z ->
  day e = current_day st ->
  duty_counted (activity_type e) = false ->
  activity_type e <> DRIVING ->
  current_day_duty st' == 0 ->
  day_accounted st'.
Proof.
  intros [Hpast Hduty Hcap] Hs Hday He Hc Hnd Hd.
  assert (Hall : Forall (fun x => (day x < current_day st')%Z)
                        (schedule_of st ++ [e])).
  { apply Forall_app. split.
    - eapply Forall_impl; [| exact Hpast]. cbv beta. intros; lia.
    - constructor; [lia | constructor]. }
  split; rewrite ?Hs.
  - eapply Forall_impl; [| exact Hall]. cbv beta. intros; lia.
  - rewrite (duty_on_day_later _ _ Hall), Hd. reflexivity.
  - apply stints_within_cap_snoc; [exact Hcap |]. intro H. contradiction.
Qed.

Section DutyCap.

Variable g : Q -> Q -> Q -> Q -> option Q.

Lemma enter_segment_accounted (segment : Segment.t) (st : sim_state) :
  day_accounted st -> day_accounted (enter_segment segment st).
Proof. intros [H1 H2 H3]. split; assumption. Qed.

Lemma pickup_accounted (i idx : Z) (st : sim_state) :
  day_accounted st -> day_accounted (pickup i idx st).
Proof.
  intro H. unfold pickup.
  destruct ((i =? idx)%Z && negb (pickup_done st)); [| exact H].
  eapply (day_accounted_duty st); try exact H;
    try (unfold schedule_of; st_simpl; apply schedule_of_emit);
    try reflexivity.
  discriminate.
Qed.

Lemma break_check_accounted (i : Z) (st : sim_state) :
  day_accounted st -> day_accounted (break_check i st).
Proof.
  intro H. unfold break_check. qcase; [| exact H].
  eapply (day_accounted_duty st); try exact H;
    try (unfold schedule_of; st_simpl; apply schedule_of_emit);
    try reflexivity.
  discriminate.
Qed.

Lemma fuel_check_accounted (i : Z) (st : sim_state) :
  day_accounted st -> day_accounted (fuel_check g i st).
Proof.
  intro H. unfold fuel_check.
  destruct (remaining_coords st); [exact H |].
  qcase; [| exact H].
  eapply (day_accounted_duty st); try exact H;
    try (unfold schedule_of; st_simpl; apply schedule_of_emit);
    try reflexivity.
  discriminate.
Qed.

Lemma while_body_accounted (i : Z) (speed : Q) (st : sim_state) :
  day_accounted st -> day_accounted (while_body g i speed st).
Proof.
  intro H. apply (break_check_accounted i) in H. unfold while_body.
  set (st1 := break_check i st) in *.
  destruct (Qle_bool (available_day_driving st1) 0) eqn:Ea.
  - destruct (Qle_bool (remaining_cycle_hours st1) 0).
    + eapply (day_accounted_rest st1); try exact H;
        try (unfold schedule_of; st_simpl; apply schedule_of_emit);
        try reflexivity; try discriminate.
      unfold take_restart. st_simpl. lia.
    + eapply (day_accounted_rest st1); try exact H;
        try (unfold schedule_of; st_simpl; apply schedule_of_emit);
        try reflexivity; try discriminate.
      unfold take_rest. st_simpl. lia.
  - apply fuel_check_accounted.
    eapply (day_accounted_duty st1); try exact H;
      try (unfold schedule_of; st_simpl; apply schedule_of_emit);
      try reflexivity.
    intros _. cbn [duration_hours].
    unfold available_day_driving. minmax. lra.
Qed.

Lemma simulate_stints_within_cap (fuel : nat)
    (route_segments : list Segment.t) (initial_hours_used : Q) (idx : Z)
    (st : sim_state) :
  simulate g fuel route_segments initial_hours_used idx = Some st ->
  stints_within_cap (schedule_of st).
Proof.
  unfold simulate.
  destruct (run_segments g fuel idx 0 route_segments
              (initial_state initial_hours_used)) as [st1 |] eqn:E;
    [| discriminate].
  intro H. injection H as <-.
  assert (H1 : day_accounted st1).
  { apply (run_segments_invariant g
             (fun _ s => day_accounted s) (fun _ _ s => day_accounted s) idx)
      with (fuel := fuel) (rest := route_segments) (done := [])
           (st := initial_state initial_hours_used).
    - intros. apply pickup_accounted, enter_segment_accounted. assumption.
    - intros. apply while_body_accounted. assumption.
    - auto.
    - split.
      + constructor.
      + reflexivity.
      + intros pre e post Heq. destruct pre; discriminate Heq.
    - exact E. }
  unfold dropoff. destruct route_segments as [| s0 rest];
    [apply (stints_capped _ H1) |].
  unfold schedule_of. st_simpl. rewrite schedule_of_emit.
  apply stints_within_cap_snoc; [apply (stints_capped _ H1) |].
  discriminate.
Qed.

End DutyCap.

(** C2, as the code behaves.  The simulation returns a schedule in which,
    for every DRIVING event, the duty-counted hours (DRIVING, BREAK,
    PICKUP, DROPOFF, FUEL) of that event's day, counted up to and
    including the event, are at most 14: the cap bounds every granted
    stint.  The stops that follow a stint are not held to it. *)
Theorem stints_end_within_duty_cap (g : Q -> Q -> Q -> Q -> option Q)
    (route_segments : list Segment.t) (initial_hours_used : Q) (idx : Z) :
  exists s,
    calculate_route_schedule g route_segments initial_hours_used idx
      = Some s /\
    forall pre e post,
      s = pre ++ e :: post ->
      activity_type e = DRIVING ->
      duty_on_day (pre ++ [e]) (day e) <= 14.
Proof.
  destruct (simulate_total g route_segments initial_hours_used idx)
    as [st Hst].
  exists (schedule_of st).
  split; [apply (calculate_route_schedule_some g _ _ _ _ Hst) |].
  apply (simulate_stints_within_cap g _ _ _ _ _ Hst).
Qed.

(** * Further properties of the code *)

(** ** Python's stable [sorted] *)

Section StableSort.

Context {A : Type}.
Variable le : A -> A -> bool.

Hypothesis le_total : forall x y, le x y = true \/ le y x = true.

Lemma insert_sorted_perm (x : A) (l : list A) :
  Permutation (insert_sorted le x l) (x :: l).
Proof.
  induction l as [| y l IH]; cbn [insert_sorted]; [reflexivity |].
  destruct (le y x); [| reflexivity].
  rewrite IH. apply perm_swap.
Qed.

Lemma fold_insert_perm (l acc : list A) :
  Permutation (fold_left (fun acc x => insert_sorted le x acc) l acc)
              (acc ++ l).
Proof.
  revert acc. induction l as [| x l IH]; intro acc; cbn [fold_left].
  - rewrite app_nil_r. reflexivity.
  - rewrite IH, insert_sorted_perm. apply Permutation_middle.
Qed.

Lemma sorted_perm (l : list A) : Permutation (sorted le l) l.
Proof. unfold sorted. apply (fold_insert_perm l []). Qed.

Lemma insert_sorted_HdRel (y x : A) (l : list A) :
  le y x = true ->
  HdRel (fun a b => le a b = true) y l ->
  HdRel (fun a b => le a b = true) y (insert_sorted le x l).
Proof.
  intros Hyx H. destruct l as [| z l]; cbn [insert_sorted].
  - constructor. exact Hyx.
  - inversion H; subst. destruct (le z x); constructor; assumption.
Qed.

Lemma insert_sorted_Sorted (x : A) (l : list A) :
  Sorted (fun a b => le a b = true) l ->
  Sorted (fun a b => le a b = true) (insert_sorted le x l).
Proof.
  induction 1 as [| y l Hs IH Hd]; cbn [insert_sorted].
  - repeat constructor.
  - destruct (le y x) eqn:E.
    + constructor; [exact IH | apply insert_sorted_HdRel; assumption].
    + constructor; [constructor; assumption |].
      constructor. destruct (le_total x y) as [H | H]; congruence.
Qed.

Lemma sorted_Sorted (l : list A) :
  Sorted (fun a b => le a b = true) (sorted le l).
Proof.
  unfold sorted.
  assert (H : forall acc,
             Sorted (fun a b => le a b = true) acc ->
             Sorted (fun a b => le a b = true)
               (fold_left (fun acc x => insert_sorted le x acc) l acc)).
  { induction l as [| x l IH]; intros acc Hacc; cbn [fold_left];
      [exact Hacc |].
    apply IH, insert_sorted_Sorted, Hacc. }
  apply H. constructor.
Qed.

Lemma insert_sorted_last (x : A) (l : list A) :
  Forall (fun y => le y x = true) l -> insert_sorted le x l = l ++ [x].
Proof.
  induction 1 as [| y l Hy _ IH]; cbn [insert_sorted app]; [reflexivity |].
  rewrite Hy, IH. reflexivity.
Qed.

(** A list that is already in order is returned as it is. *)
Lemma sorted_id (l : list A) :
  StronglySorted (fun a b => le a b = true) l -> sorted le l = l.
Proof.
  unfold sorted.
  assert (H : forall acc,
             StronglySorted (fun a b => le a b = true) (acc ++ l) ->
             fold_left (fun acc x => insert_sorted le x acc) l acc = acc ++ l).
  { induction l as [| x l IH]; intros acc Hs; cbn [fold_left].
    - rewrite app_nil_r. reflexivity.
    - rewrite insert_sorted_last.
      + rewrite IH; rewrite <- app_assoc; [reflexivity | exact Hs].
      + clear IH. induction acc as [| a acc IHa]; [constructor |].
        cbn [app] in Hs. inversion Hs as [| ? ? Hs' Hall]; subst.
        constructor; [| apply IHa, Hs'].
        rewrite Forall_app in Hall. destruct Hall as [_ Hall].
        inversion Hall; assumption. }
  apply (H []).
Qed.

End StableSort.

(** ** Grouping by day *)

Lemma items_of_add (G : list (Z * list event)) (e : event) (d : Z) :
  items_of (add_to_day G e) d
  = items_of G d ++ (if (day e =? d)%Z then [e] else []).
Proof.
  unfold items_of.
  induction G as [| [k it] G IH]; cbn [add_to_day find fst snd].
  - destruct (day e =? d)%Z; reflexivity.
  - destruct (k =? day e)%Z eqn:Ek; cbn [find fst snd].
    + apply Z.eqb_eq in Ek. subst k.
      destruct (day e =? d)%Z; [reflexivity | rewrite app_nil_r; reflexivity].
    + destruct (k =? d)%Z eqn:Ed; [| exact IH].
      apply Z.eqb_eq in Ed. subst k. rewrite Z.eqb_sym, Ek, app_nil_r.
      reflexivity.
Qed.

Lemma items_of_fold (s : list event) (G : list (Z * list event)) (d : Z) :
  items_of (fold_left add_to_day s G) d = items_of G d ++ events_on d s.
Proof.
  revert G. induction s as [| e s IH]; intro G; cbn [fold_left].
  - unfold events_on. cbn [filter]. rewrite app_nil_r. reflexivity.
  - rewrite IH, items_of_add, <- app_assoc. unfold events_on.
    cbn [filter]. destruct (day e =? d)%Z; reflexivity.
Qed.

Lemma day_keys_add (G : list (Z * list event)) (e : event) :
  day_keys (add_to_day G e)
  = if existsb (fun k => (k =? day e)%Z) (day_keys G)
    then day_keys G else day_keys G ++ [day e].
Proof.
  unfold day_keys.
  induction G as [| [k it] G IH]; cbn [add_to_day map existsb fst];
    [reflexivity |].
  destruct (k =? day e)%Z; cbn [map fst orb]; [reflexivity |].
  rewrite IH. destruct (existsb _ (map fst G)); reflexivity.
Qed.

Lemma day_keys_add_NoDup (G : list (Z * list event)) (e : event) :
  NoDup (day_keys G) -> NoDup (day_keys (add_to_day G e)).
Proof.
  intro H. rewrite day_keys_add.
  destruct (existsb (fun k => (k =? day e)%Z) (day_keys G)) eqn:E;
    [exact H |].
  apply NoDup_app; [exact H | repeat constructor; intros [] |].
  intros k Hin [<- | []].
  assert (existsb (fun k0 => (k0 =? day e)%Z) (day_keys G) = true)
    by (apply existsb_exists; exists (day e); split;
        [exact Hin | apply Z.eqb_refl]).
  congruence.
Qed.

Lemma day_keys_add_In (G : list (Z * list event)) (e : event) (d : Z) :
  In d (day_keys (add_to_day G e)) <-> In d (day_keys G) \/ day e = d.
Proof.
  rewrite day_keys_add.
  destruct (existsb (fun k => (k =? day e)%Z) (day_keys G)) eqn:E.
  - split; [auto | intros [H | <-]; [exact H |]].
    apply existsb_exists in E. destruct E as (k & Hk & Ek).
    apply Z.eqb_eq in Ek. subst k. exact Hk.
  - rewrite in_app_iff. cbn [In]. tauto.
Qed.

Lemma day_keys_fold (s : list event) (G : list (Z * list event)) :
  (NoDup (day_keys G) -> NoDup (day_keys (fold_left add_to_day s G))) /\
  (forall d, In d (day_keys (fold_left add_to_day s G)) <->
             In d (day_keys G) \/ exists e, In e s /\ day e = d).
Proof.
  revert G. induction s as [| e s IH]; intro G; cbn [fold_left].
  - split; [auto |]. intro d. split; [auto | intros [H | (e & [] & _)]; exact H].
  - destruct (IH (add_to_day G e)) as [IH1 IH2]. split.
    + intro H. apply IH1, day_keys_add_NoDup, H.
    + intro d. rewrite IH2, day_keys_add_In. cbn [In]. split.
      * intros [[H | H] | (x & Hx & Hd)]; eauto.
      * intros [H | (x & [<- | Hx] & Hd)]; eauto.
Qed.

Lemma items_of_In (G : list (Z * list event)) (d : Z) (it : list event) :
  NoDup (day_keys G) -> In (d, it) G -> items_of G d = it.
Proof.
  unfold items_of, day_keys.
  induction G as [| [k it'] G IH]; cbn [map fst find]; intros Hnd Hin;
    [destruct Hin |].
  inversion Hnd as [| ? ? Hk Hnd']; subst.
  destruct Hin as [Heq | Hin].
  - injection Heq as -> ->. rewrite Z.eqb_refl. reflexivity.
  - destruct (k =? d)%Z eqn:E; [| apply IH; assumption].
    apply Z.eqb_eq in E. subst k. exfalso. apply Hk.
    apply (in_map fst) in Hin. exact Hin.
Qed.

(** ** The daily logs *)

Lemma by_day_total (x y : Z * list event) :
  by_day x y = true \/ by_day y x = true.
Proof. unfold by_day. rewrite !Z.leb_le. lia. Qed.

Lemma by_start_total (x y : event) :
  by_start x y = true \/ by_start y x = true.
Proof.
  unfold by_start. rewrite !Qle_bool_iff.
  destruct (Qlt_le_dec (start_duty_hours y) (start_duty_hours x)) as [H | H];
    [right; apply Qlt_le_weak, H | left; exact H].
Qed.

Lemma generate_eld_logs_eq (s : list event) :
  generate_eld_logs s
  = map daily_log_of (sorted by_day (fold_left add_to_day s [])).
Proof.
  unfold generate_eld_logs. apply map_ext. intros [d items]. reflexivity.
Qed.

Lemma eld_log_days (s : list event) :
  map DailyLog.day (generate_eld_logs s)
  = day_keys (sorted by_day (fold_left add_to_day s [])).
Proof. rewrite generate_eld_logs_eq, map_map. reflexivity. Qed.

Lemma by_day_Sorted_keys (G : list (Z * list event)) :
  Sorted (fun a b => by_day a b = true) G -> StronglySorted Z.le (day_keys G).
Proof.
  intro H. apply Sorted_StronglySorted; [intros a b c; apply Z.le_trans |].
  unfold day_keys.
  induction H as [| p l Hs IH Hd]; cbn [map]; constructor; [exact IH |].
  destruct Hd as [| q l' Hq]; cbn [map]; constructor.
  apply Z.leb_le. exact Hq.
Qed.

Lemma StronglySorted_le_lt (l : list Z) :
  StronglySorted Z.le l -> NoDup l -> StronglySorted Z.lt l.
Proof.
  induction 1 as [| k l Hs IH Hall]; intro Hnd; constructor;
    inversion Hnd as [| ? ? Hnotin Hnd']; subst.
  - apply IH, Hnd'.
  - rewrite Forall_forall in *. intros x Hx. specialize (Hall x Hx).
    assert (k <> x) by (intro; subst; contradiction).
    lia.
Qed.

Lemma eld_log_days_spec (s : list event) :
  StronglySorted Z.lt (map DailyLog.day (generate_eld_logs s)) /\
  forall d, In d (map DailyLog.day (generate_eld_logs s)) <->
            exists e, In e s /\ day e = d.
Proof.
  rewrite eld_log_days.
  set (G := fold_left add_to_day s []).
  pose proof (sorted_perm by_day G) as Hperm.
  destruct (day_keys_fold s []) as [Hnd Hin]. fold G in Hnd, Hin.
  assert (HndS : NoDup (day_keys (sorted by_day G))).
  { eapply Permutation_NoDup; [| apply Hnd; constructor].
    symmetry. apply Permutation_map, Hperm. }
  split.
  - apply StronglySorted_le_lt; [| exact HndS].
    apply by_day_Sorted_keys, sorted_Sorted, by_day_total.
  - intro d.
    assert (Hp : Permutation (day_keys (sorted by_day G)) (day_keys G))
      by (apply Permutation_map, Hperm).
    split; intro H.
    + apply (Permutation_in _ Hp) in H. apply Hin in H.
      destruct H as [[] | H]. exact H.
    + apply (Permutation_in _ (Permutation_sym Hp)). apply Hin.
      right. exact H.
Qed.

(** The days of the logs: ascending without repetition, and exactly the
    days that occur in the schedule. *)
Theorem eld_logs_days_ascending (s : list event) :
  StronglySorted Z.lt (map DailyLog.day (generate_eld_logs s)) /\
  forall d, In d (map DailyLog.day (generate_eld_logs s)) <->
            exists e, In e s /\ day e = d.
Proof. exact (eld_log_days_spec s). Qed.

Lemma flat_map_perm_pointwise {A B : Type} (f h : A -> list B) (l : list A) :
  (forall x, In x l -> Permutation (f x) (h x)) ->
  Permutation (flat_map f l) (flat_map h l).
Proof.
  induction l as [| x l IH]; intro H; cbn [flat_map]; [reflexivity |].
  apply Permutation_app; [apply H; left; reflexivity |].
  apply IH. intros y Hy. apply H. right. exact Hy.
Qed.

Lemma add_to_day_items_perm (G : list (Z * list event)) (e : event) :
  Permutation (flat_map snd (add_to_day G e)) (e :: flat_map snd G).
Proof.
  induction G as [| [k it] G IH]; cbn [add_to_day flat_map snd app];
    [reflexivity |].
  destruct (k =? day e)%Z; cbn [flat_map snd].
  - rewrite <- app_assoc. cbn [app].
    symmetry. apply Permutation_middle.
  - rewrite IH. symmetry. apply Permutation_middle.
Qed.

Lemma fold_add_to_day_perm (s : list event) (G : list (Z * list event)) :
  Permutation (flat_map snd (fold_left add_to_day s G)) (flat_map snd G ++ s).
Proof.
  revert G. induction s as [| e s IH]; intro G; cbn [fold_left].
  - rewrite app_nil_r. reflexivity.
  - rewrite IH, add_to_day_items_perm. apply Permutation_middle.
Qed.

Lemma eld_log_activities (s : list event) (log : DailyLog.t) :
  In log (generate_eld_logs s) ->
  DailyLog.activities log
  = map log_entry_of (sorted by_start (events_on (DailyLog.day log) s)) /\
  exists e, In e s /\ day e = DailyLog.day log.
Proof.
  rewrite generate_eld_logs_eq. intro Hin.
  apply in_map_iff in Hin. destruct Hin as ([d it] & <- & Hin).
  cbn [daily_log_of DailyLog.activities DailyLog.day fst snd].
  set (G := fold_left add_to_day s []) in *.
  apply (Permutation_in _ (sorted_perm by_day G)) in Hin.
  destruct (day_keys_fold s []) as [Hnd Hkeys]. fold G in Hnd, Hkeys.
  split.
  - rewrite <- (items_of_In G d it (Hnd (NoDup_nil _)) Hin).
    unfold G. rewrite items_of_fold. reflexivity.
  - assert (Hk : In d (day_keys G)) by (apply (in_map fst) in Hin; exact Hin).
    apply Hkeys in Hk. destruct Hk as [[] | Hk]. exact Hk.
Qed.

(** The log of a day holds the entries of the events of that day, each
    once, and nothing else; a day without events has no log; over all the
    logs no event of the schedule is lost or repeated. *)
Theorem eld_logs_hold_every_event (s : list event) :
  (forall log, In log (generate_eld_logs s) ->
     Permutation (DailyLog.activities log)
                 (map log_entry_of (events_on (DailyLog.day log) s)) /\
     DailyLog.activities log <> []) /\
  Permutation (flat_map DailyLog.activities (generate_eld_logs s))
              (map log_entry_of s).
Proof.
  split.
  - intros log Hin.
    destruct (eld_log_activities s log Hin) as (-> & e & He & Hd).
    split.
    + apply Permutation_map, sorted_perm.
    + intro Hnil. apply map_eq_nil in Hnil.
      assert (Hin' : In e (sorted by_start (events_on (DailyLog.day log) s))).
      { apply (Permutation_in _ (Permutation_sym (sorted_perm by_start _))).
        apply filter_In. split; [exact He | apply Z.eqb_eq, Hd]. }
      rewrite Hnil in Hin'. destruct Hin'.
  - rewrite generate_eld_logs_eq, flat_map_concat_map, map_map.
    rewrite <- flat_map_concat_map.
    set (G := fold_left add_to_day s []).
    transitivity (flat_map (fun p => map log_entry_of (snd p)) G).
    + transitivity
        (flat_map (fun p => DailyLog.activities (daily_log_of p)) G).
      * apply Permutation_flat_map, sorted_perm.
      * apply flat_map_perm_pointwise. intros p _.
        cbn [daily_log_of DailyLog.activities].
        apply Permutation_map, sorted_perm.
    + rewrite flat_map_concat_map, <- (map_map snd (map log_entry_of)),
        <- concat_map, <- flat_map_concat_map.
      apply Permutation_map.
      apply (fold_add_to_day_perm s []).
Qed.

Lemma Sorted_log_entries (l : list event) :
  Sorted (fun a b => by_start a b = true) l ->
  Sorted (fun a b => LogEntry.start_hour a <= LogEntry.start_hour b)
         (map log_entry_of l).
Proof.
  induction 1 as [| e l Hs IH Hd]; cbn [map]; constructor; [exact IH |].
  destruct Hd as [| e' l' He]; cbn [map]; constructor.
  cbn [log_entry_of LogEntry.start_hour].
  apply Qle_bool_iff. exact He.
Qed.

Lemma eld_log_order_spec (s : list event) (log : DailyLog.t) :
  In log (generate_eld_logs s) ->
  Sorted (fun a b => LogEntry.start_hour a <= LogEntry.start_hour b)
         (DailyLog.activities log) /\
  (StronglySorted (fun a b => by_start a b = true)
                  (events_on (DailyLog.day log) s) ->
   DailyLog.activities log
   = map log_entry_of (events_on (DailyLog.day log) s)).
Proof.
  intro Hin. destruct (eld_log_activities s log Hin) as (-> & _). split.
  - apply Sorted_log_entries, sorted_Sorted, by_start_total.
  - intro Hs. rewrite (sorted_id by_start _ Hs). reflexivity.
Qed.


(** ** Days, start hours and driving hours of a schedule *)

Lemma end_day_snoc (d : Z) (s : list event) (e : event) :
  end_day d (s ++ [e]) = next_day e.
Proof. unfold end_day. rewrite fold_left_app. reflexivity. Qed.

Lemma day_steps_snoc (d : Z) (s : list event) (e : event) :
  day_steps d s -> day e = end_day d s -> day_steps d (s ++ [e]).
Proof.
  revert d. induction s as [| x s IH]; intros d Hs He; cbn [app day_steps].
  - split; [exact He | exact I].
  - destruct Hs as [Hx Hs]. split; [exact Hx |]. apply IH; [exact Hs |].
    rewrite He. unfold end_day. reflexivity.
Qed.

Lemma next_day_le (e : event) : (day e <= next_day e)%Z.
Proof. unfold next_day. destruct (activity_type e); lia. Qed.

Lemma day_steps_from (d : Z) (s : list event) :
  day_steps d s -> Forall (fun e => (d <= day e)%Z) s.
Proof.
  revert d. induction s as [| x s IH]; intros d Hs; constructor.
  - destruct Hs as [-> _]. lia.
  - destruct Hs as [<- Hs]. apply IH in Hs.
    eapply Forall_impl; [| exact Hs]. cbv beta. intros a Ha.
    pose proof (next_day_le x). lia.
Qed.

Lemma day_steps_sorted (d : Z) (s : list event) :
  day_steps d s -> StronglySorted Z.le (map day s).
Proof.
  revert d. induction s as [| x s IH]; intros d Hs; cbn [map]; constructor.
  - destruct Hs as [_ Hs]. apply (IH _ Hs).
  - destruct Hs as [_ Hs]. apply day_steps_from in Hs.
    apply Forall_map. eapply Forall_impl; [| exact Hs]. cbv beta.
    intros a Ha. pose proof (next_day_le x). lia.
Qed.

Lemma StronglySorted_snoc {A : Type} (R : A -> A -> Prop) (s : list A)
    (e : A) :
  StronglySorted R s -> Forall (fun a => R a e) s ->
  StronglySorted R (s ++ [e]).
Proof.
  induction 1 as [| x s Hs IH Hx]; intro He; cbn [app].
  - repeat constructor.
  - inversion He; subst. constructor; [apply IH; assumption |].
    apply Forall_app. split; [exact Hx | repeat constructor; assumption].
Qed.

Lemma driving_on_day_snoc (s : list event) (e : event) (d : Z) :
  driving_on_day (s ++ [e]) d ==
  driving_on_day s d + (if driving_on d e then duration_hours e else 0).
Proof.
  unfold driving_on_day. rewrite filter_app, map_app, sum_Q_app.
  cbn [filter]. destruct (driving_on d e); cbn [map].
  - rewrite sum_Q_cons. change (sum_Q (@nil Q)) with 0. ring.
  - change (sum_Q (@nil Q)) with 0. ring.
Qed.

Lemma driving_on_day_later (s : list event) (d : Z) :
  Forall (fun e => (day e < d)%Z) s -> driving_on_day s d == 0.
Proof.
  intro H. unfold driving_on_day.
  replace (filter (driving_on d) s) with (@nil event); [reflexivity |].
  induction H as [| e s He _ IH]; [reflexivity |].
  cbn [filter]. unfold driving_on at 1.
  replace (day e =? d)%Z with false by (symmetry; apply Z.eqb_neq; lia).
  rewrite andb_false_r. exact IH.
Qed.

(** Appending an event of the current day that is no rest. *)
Lemma coherent_duty (st st' : sim_state) (e : event) :
  coherent st ->
  schedule_of st' = schedule_of st ++ [e] ->
  current_day st' = current_day st ->
  day e = current_day st ->
  start_duty_hours e = current_day_duty st ->
  next_day e = day e ->
  current_day_duty st <= current_day_duty st' ->
  current_day_driving st' ==
    current_day_driving st
    + (if is_activity DRIVING e then duration_hours e else 0) ->
  (is_activity DRIVING e = true ->
   current_day_driving st + duration_hours e <= max_daily_driving_hours) ->
  coherent st'.
Proof.
  intros [Hsteps Htoday Hpast Hord Hdrv Hcap] Hs Hday He Hstart Hnext
    Hduty Hdrv' Hcap'.
  assert (Hsnoc : forall d,
             driving_on_day (schedule_of st ++ [e]) d ==
             driving_on_day (schedule_of st) d
             + (if driving_on d e then duration_hours e else 0))
    by (intro d; apply driving_on_day_snoc).
  split; rewrite ?Hs, ?Hday.
  - apply day_steps_snoc; [exact Hsteps | congruence].
  - rewrite end_day_snoc. congruence.
  - apply Forall_app. split.
    + eapply Forall_impl; [| exact Hpast]. cbv beta.
      intros a [Ha1 Ha2]. split; [exact Ha1 |].
      intro H. specialize (Ha2 H). lra.
    + constructor; [| constructor]. split; [lia |]. intros _.
      rewrite Hstart. exact Hduty.
  - apply StronglySorted_snoc; [exact Hord |].
    eapply Forall_impl; [| exact Hpast]. cbv beta.
    intros a [_ Ha] Hd. rewrite Hstart. apply Ha. congruence.
  - rewrite Hsnoc, Hdrv, Hdrv'. unfold driving_on.
    rewrite He, Z.eqb_refl, andb_true_r. reflexivity.
  - intro d. rewrite Hsnoc. unfold driving_on.
    destruct (is_activity DRIVING e) eqn:Ed; cbn [andb].
    + destruct (day e =? d)%Z eqn:E.
      * apply Z.eqb_eq in E. rewrite <- E, He, Hdrv. auto.
      * specialize (Hcap d). lra.
    + specialize (Hcap d). lra.
Qed.

(** Appending a REST or a RESTART and moving to the day after it. *)
Lemma coherent_rest (st st' : sim_state) (e : event) :
  coherent st ->
  schedule_of st' = schedule_of st ++ [e] ->
  day e = current_day st ->
  start_duty_hours e = current_day_duty st ->
  (day e < next_day e)%Z ->
  current_day st' = next_day e ->
  is_activity DRIVING e = false ->
  current_day_driving st' == 0 ->
  coherent st'.
Proof.
  intros [Hsteps Htoday Hpast Hord Hdrv Hcap] Hs He Hstart Hlt Hday
    Hnd Hdrv'.
  assert (Hall : Forall (fun a => (day a < current_day st')%Z)
                        (schedule_of st ++ [e])).
  { apply Forall_app. split.
    - eapply Forall_impl; [| exact Hpast]. cbv beta. intros a [Ha _]. lia.
    - constructor; [lia | constructor]. }
  assert (Hsnoc : forall d,
             driving_on_day (schedule_of st ++ [e]) d ==
             driving_on_day (schedule_of st) d).
  { intro d. rewrite driving_on_day_snoc. unfold driving_on.
    rewrite Hnd. cbn [andb]. ring. }
  split; rewrite ?Hs.
  - apply day_steps_snoc; [exact Hsteps | congruence].
  - rewrite end_day_snoc. congruence.
  - eapply Forall_impl; [| exact Hall]. cbv beta. intros a Ha.
    split; [lia |]. intro H. lia.
  - apply StronglySorted_snoc; [exact Hord |].
    eapply Forall_impl; [| exact Hpast]. cbv beta.
    intros a [_ Ha] Hd. rewrite Hstart. apply Ha. congruence.
  - rewrite (driving_on_day_later _ _ Hall), Hdrv'. reflexivity.
  - intro d. rewrite Hsnoc. apply Hcap.
Qed.

Section Coherent.

Variable g : Q -> Q -> Q -> Q -> option Q.

Ltac appended :=
  try (unfold schedule_of; st_simpl; apply schedule_of_emit).

Lemma initial_state_coherent (initial_hours_used : Q) :
  coherent (initial_state initial_hours_used).
Proof.
  split; try reflexivity; try constructor.
  intro d. unfold max_daily_driving_hours. discriminate.
Qed.

Lemma enter_segment_coherent (segment : Segment.t) (st : sim_state) :
  coherent st -> coherent (enter_segment segment st).
Proof. intros []. split; assumption. Qed.

Lemma pickup_coherent (i idx : Z) (st : sim_state) :
  coherent st -> coherent (pickup i idx st).
Proof.
  intro H. unfold pickup.
  destruct ((i =? idx)%Z && negb (pickup_done st)); [| exact H].
  eapply (coherent_duty st); try exact H; appended; try reflexivity;
    st_simpl; cbn [is_activity activity_eqb activity_type];
    unfold pickup_duration_hours; try lra.
  all: try discriminate.
Qed.

Lemma break_check_coherent (i : Z) (st : sim_state) :
  coherent st -> coherent (break_check i st).
Proof.
  intro H. unfold break_check. qcase; [| exact H].
  eapply (coherent_duty st); try exact H; appended; try reflexivity;
    st_simpl; cbn [is_activity activity_eqb activity_type];
    unfold required_break_duration_hours; try lra.
  all: try discriminate.
Qed.

Lemma fuel_check_coherent (i : Z) (st : sim_state) :
  coherent st -> coherent (fuel_check g i st).
Proof.
  intro H. unfold fuel_check.
  destruct (remaining_coords st); [exact H |].
  qcase; [| exact H].
  eapply (coherent_duty st); try exact H; appended; try reflexivity;
    st_simpl; cbn [is_activity activity_eqb activity_type];
    unfold fuel_duration_hours; try lra.
  all: try discriminate.
Qed.

Lemma while_body_coherent (i : Z) (speed : Q) (st : sim_state) :
  coherent st -> coherent (while_body g i speed st).
Proof.
  intro H. apply (break_check_coherent i) in H. unfold while_body.
  set (st1 := break_check i st) in *.
  destruct (Qle_bool (available_day_driving st1) 0) eqn:Ea.
  - destruct (Qle_bool (remaining_cycle_hours st1) 0).
    + eapply (coherent_rest st1); try exact H; appended; try reflexivity.
      unfold next_day. cbn [activity_type day]. lia.
    + eapply (coherent_rest st1); try exact H; appended; try reflexivity.
      unfold next_day. cbn [activity_type day]. lia.
  - apply Qle_bool_false in Ea. apply fuel_check_coherent.
    eapply (coherent_duty st1); try exact H; appended; try reflexivity;
      unfold drive; st_simpl;
      cbn [is_activity activity_eqb activity_type duration_hours].
    + lra.
    + intros _. unfold available_day_driving. minmax. lra.
Qed.

Lemma dropoff_coherent (route_segments : list Segment.t) (st : sim_state) :
  coherent st -> coherent (dropoff route_segments st).
Proof.
  intro H. unfold dropoff. destruct route_segments; [exact H |].
  eapply (coherent_duty st); try exact H; appended; try reflexivity;
    st_simpl; cbn [is_activity activity_eqb activity_type]; try lra.
  all: try discriminate.
Qed.

Lemma simulate_coherent (fuel : nat) (route_segments : list Segment.t)
    (initial_hours_used : Q) (idx : Z) (st : sim_state) :
  simulate g fuel route_segments initial_hours_used idx = Some st ->
  coherent st.
Proof.
  unfold simulate.
  destruct (run_segments g fuel idx 0 route_segments
              (initial_state initial_hours_used)) as [st1 |] eqn:E;
    [| discriminate].
  intro H. injection H as <-. apply dropoff_coherent.
  apply (run_segments_invariant g
           (fun _ s => coherent s) (fun _ _ s => coherent s) idx)
    with (fuel := fuel) (rest := route_segments) (done := [])
         (st := initial_state initial_hours_used).
  - intros. apply pickup_coherent, enter_segment_coherent. assumption.
  - intros. apply while_body_coherent. assumption.
  - auto.
  - apply initial_state_coherent.
  - exact E.
Qed.

End Coherent.

(** ** Grouping a schedule whose days do not decrease *)

Lemma list_snoc_case {A : Type} (l : list A) :
  l = [] \/ exists l' x, l = l' ++ [x].
Proof.
  induction l as [| a l IH]; [left; reflexivity | right].
  destruct IH as [-> | (l' & x & ->)].
  - exists [], a. reflexivity.
  - exists (a :: l'), x. reflexivity.
Qed.

Lemma StronglySorted_snoc_inv {A : Type} (R : A -> A -> Prop) (s : list A)
    (e : A) :
  StronglySorted R (s ++ [e]) ->
  StronglySorted R s /\ Forall (fun a => R a e) s.
Proof.
  induction s as [| x s IH]; cbn [app]; intro H.
  - split; constructor.
  - inversion H as [| ? ? Hs Hx]; subst. destruct (IH Hs) as [H1 H2].
    rewrite Forall_app in Hx. destruct Hx as [Hx He].
    inversion He; subst.
    split; constructor; assumption.
Qed.

Lemma add_to_day_new (G : list (Z * list event)) (e : event) :
  ~ In (day e) (day_keys G) -> add_to_day G e = G ++ [(day e, [e])].
Proof.
  unfold day_keys.
  induction G as [| [k it] G IH]; cbn [add_to_day map fst In app]; intro H;
    [reflexivity |].
  destruct (k =? day e)%Z eqn:E.
  - apply Z.eqb_eq in E. exfalso. apply H. left. exact E.
  - rewrite IH; [reflexivity |]. intro Hin. apply H. right. exact Hin.
Qed.

Lemma add_to_day_last (G : list (Z * list event)) (it : list event)
    (e : event) :
  ~ In (day e) (day_keys G) ->
  add_to_day (G ++ [(day e, it)]) e = G ++ [(day e, it ++ [e])].
Proof.
  unfold day_keys.
  induction G as [| [k it'] G IH]; cbn [add_to_day map fst In app]; intro H.
  - rewrite Z.eqb_refl. reflexivity.
  - destruct (k =? day e)%Z eqn:E.
    + apply Z.eqb_eq in E. exfalso. apply H. left. exact E.
    + rewrite IH; [reflexivity |]. intro Hin. apply H. right. exact Hin.
Qed.

Lemma fold_add_to_day_sorted (l : list event) :
  forall G,
    StronglySorted Z.le (map day l) ->
    StronglySorted Z.lt (day_keys G) ->
    Forall (fun k => Forall (fun e => (k <= day e)%Z) l) (day_keys G) ->
    flat_map snd (fold_left add_to_day l G) = flat_map snd G ++ l /\
    StronglySorted Z.lt (day_keys (fold_left add_to_day l G)).
Proof.
  induction l as [| e l IH]; intros G Hl HG Hle; cbn [fold_left].
  - rewrite app_nil_r. split; [reflexivity | exact HG].
  - cbn [map] in Hl. inversion Hl as [| ? ? Hl' He]; subst.
    rewrite Forall_map in He.
    assert (Hle' : Forall (fun k => Forall (fun x => (k <= day x)%Z) l)
                          (day_keys G)).
    { eapply Forall_impl; [| exact Hle]. cbv beta. intros k Hk.
      inversion Hk; assumption. }
    destruct (list_snoc_case G) as [-> | (G' & [d it] & ->)].
    + destruct (IH [(day e, [e])] Hl') as [H1 H2].
      * repeat constructor.
      * repeat constructor. exact He.
      * cbn [add_to_day]. split; [| exact H2].
        rewrite H1. reflexivity.
    + unfold day_keys in HG, Hle, Hle'. rewrite map_app in HG, Hle, Hle'.
      cbn [map fst] in HG, Hle, Hle'.
      apply StronglySorted_snoc_inv in HG. destruct HG as [HG' Hlt].
      assert (Hd : (d <= day e)%Z).
      { rewrite Forall_app in Hle. destruct Hle as [_ Hle].
        inversion Hle as [| ? ? Hd _]; subst. inversion Hd; assumption. }
      assert (Hnot : ~ In (day e) (day_keys G')).
      { intro Hin. unfold day_keys in Hin. rewrite Forall_forall in Hlt.
        specialize (Hlt _ Hin). lia. }
      destruct (Z.eq_dec d (day e)) as [-> | Hne].
      * rewrite add_to_day_last by exact Hnot.
        destruct (IH (G' ++ [(day e, it ++ [e])]) Hl') as [H1 H2].
        -- unfold day_keys. rewrite map_app. cbn [map fst].
           apply StronglySorted_snoc; assumption.
        -- unfold day_keys. rewrite map_app. cbn [map fst]. exact Hle'.
        -- split; [| exact H2]. rewrite H1, !flat_map_app.
           cbn [flat_map snd]. rewrite !app_nil_r, <- !app_assoc.
           reflexivity.
      * rewrite add_to_day_new.
        -- destruct (IH ((G' ++ [(d, it)]) ++ [(day e, [e])]) Hl')
             as [H1 H2].
           ++ unfold day_keys. rewrite !map_app. cbn [map fst].
              apply StronglySorted_snoc.
              ** apply StronglySorted_snoc; assumption.
              ** apply Forall_app. split.
                 --- eapply Forall_impl; [| exact Hlt]. cbv beta.
                     intros; lia.
                 --- repeat constructor. lia.
           ++ unfold day_keys. rewrite !map_app. cbn [map fst].
              apply Forall_app. split; [exact Hle' |].
              repeat constructor. exact He.
           ++ split; [| exact H2]. rewrite H1, !flat_map_app.
              cbn [flat_map snd]. rewrite !app_nil_r, <- !app_assoc.
              reflexivity.
        -- unfold day_keys. rewrite map_app. cbn [map fst].
           rewrite in_app_iff. cbn [In]. intros [Hin | [Heq | []]].
           ++ apply Hnot. exact Hin.
           ++ apply Hne. exact Heq.
Qed.

Lemma StronglySorted_filter {A : Type} (R : A -> A -> Prop) (f : A -> bool)
    (l : list A) :
  StronglySorted R l -> StronglySorted R (filter f l).
Proof.
  induction 1 as [| x l Hs IH Hx]; cbn [filter]; [constructor |].
  destruct (f x); [| exact IH].
  constructor; [exact IH |].
  rewrite Forall_forall in *. intros y Hy.
  apply filter_In in Hy. apply Hx, Hy.
Qed.

Lemma events_on_in_start_order (s : list event) (d : Z) :
  StronglySorted same_day_before s ->
  StronglySorted (fun a b => by_start a b = true) (events_on d s).
Proof.
  intro H. unfold events_on.
  induction H as [| x l Hs IH Hx]; cbn [filter]; [constructor |].
  destruct (day x =? d)%Z eqn:E; [| exact IH].
  constructor; [exact IH |].
  rewrite Forall_forall in *. intros y Hy.
  apply filter_In in Hy. destruct Hy as [Hy Ed].
  apply Z.eqb_eq in E, Ed. unfold by_start. apply Qle_bool_iff.
  apply (Hx y Hy). congruence.
Qed.

(** For a schedule whose days do not decrease and whose events of one
    day are in the order of their start hours, the daily logs, read one
    after the other, list the schedule in its own order. *)
Lemma eld_logs_of_ordered_schedule (s : list event) :
  StronglySorted Z.le (map day s) ->
  StronglySorted same_day_before s ->
  flat_map DailyLog.activities (generate_eld_logs s) = map log_entry_of s.
Proof.
  intros Hdays Hord. rewrite generate_eld_logs_eq.
  set (G := fold_left add_to_day s []).
  destruct (fold_add_to_day_sorted s [] Hdays) as [Hflat Hkeys];
    [constructor | constructor |]. fold G in Hflat, Hkeys.
  cbn [flat_map app] in Hflat.
  assert (HG : sorted by_day G = G).
  { apply sorted_id. unfold day_keys in Hkeys. clear - Hkeys.
    induction G as [| p G IH]; [constructor |].
    cbn [map] in Hkeys. inversion Hkeys as [| ? ? Hk Hp]; subst.
    constructor; [apply IH, Hk |].
    rewrite Forall_map in Hp. eapply Forall_impl; [| exact Hp].
    cbv beta. intros q Hq. unfold by_day. apply Z.leb_le. lia. }
  rewrite HG.
  destruct (day_keys_fold s []) as [Hnd _]. fold G in Hnd.
  specialize (Hnd (NoDup_nil _)).
  assert (Hlogs : forall p, In p G ->
            DailyLog.activities (daily_log_of p) = map log_entry_of (snd p)).
  { intros [d it] Hin. cbn [daily_log_of DailyLog.activities snd].
    rewrite <- (items_of_In G d it Hnd Hin).
    unfold G. rewrite items_of_fold. cbn [items_of find app].
    rewrite (sorted_id by_start); [reflexivity |].
    apply events_on_in_start_order, Hord. }
  rewrite <- Hflat. clear - Hlogs.
  induction G as [| p G IH]; cbn [map flat_map]; [reflexivity |].
  rewrite map_app, Hlogs by (left; reflexivity).
  rewrite IH; [reflexivity |].
  intros q Hq. apply Hlogs. right. exact Hq.
Qed.

Lemma no_event_between (s : list event) :
  forall d, day_steps d s ->
  forall e x, In e s -> In x s -> ~ (day e < day x < next_day e)%Z.
Proof.
  induction s as [| a s IH]; intros d Hsteps e x He Hx; [destruct He |].
  destruct Hsteps as [Ha Hs].
  pose proof (day_steps_from _ _ Hs) as Hfrom.
  rewrite Forall_forall in Hfrom.
  pose proof (next_day_le a).
  destruct He as [<- | He]; destruct Hx as [<- | Hx].
  - lia.
  - specialize (Hfrom _ Hx). lia.
  - specialize (Hfrom _ He). lia.
  - apply (IH _ Hs e x He Hx).
Qed.

(** ** What every schedule of the simulator satisfies *)

Section ScheduleFacts.

Variable g : Q -> Q -> Q -> Q -> option Q.
Variable route_segments : list Segment.t.
Variable initial_hours_used : Q.
Variable idx : Z.

Lemma schedule_coherent :
  exists st,
    calculate_route_schedule g route_segments initial_hours_used idx
      = Some (schedule_of st) /\
    coherent st.
Proof.
  destruct (simulate_total g route_segments initial_hours_used idx)
    as [st Hst].
  exists st. split.
  - apply (calculate_route_schedule_some g _ _ _ _ Hst).
  - apply (simulate_coherent g _ _ _ _ _ Hst).
Qed.

(** The first event is on day 1; every event is on the day of the event
    before it, on the next day after a REST and two days later after a
    RESTART.  So the days never decrease along the schedule. *)
Theorem schedule_days_step :
  exists s,
    calculate_route_schedule g route_segments initial_hours_used idx
      = Some s /\
    day_steps 1 s /\
    StronglySorted Z.le (map day s).
Proof.
  destruct schedule_coherent as (st & Hs & Hc).
  exists (schedule_of st). split; [exact Hs |].
  split; [apply (co_steps _ Hc) |].
  apply (day_steps_sorted 1), (co_steps _ Hc).
Qed.

(** On no day do the DRIVING events add up to more than 11 hours. *)
Theorem daily_driving_within_cap :
  exists s,
    calculate_route_schedule g route_segments initial_hours_used idx
      = Some s /\
    forall d, driving_on_day s d <= 11.
Proof.
  destruct schedule_coherent as (st & Hs & Hc).
  exists (schedule_of st). split; [exact Hs |].
  apply (co_capped _ Hc).
Qed.

(** Within a day the events are emitted in the order of their start
    hours, so [generate_eld_logs] reorders nothing: the daily logs, read
    one after the other, list the events of the schedule in the order of
    emission, and the log of a day lists the events of that day in that
    order. *)
Theorem eld_logs_follow_schedule :
  exists s,
    calculate_route_schedule g route_segments initial_hours_used idx
      = Some s /\
    flat_map DailyLog.activities (generate_eld_logs s)
      = map log_entry_of s /\
    forall log, In log (generate_eld_logs s) ->
      DailyLog.activities log
      = map log_entry_of (events_on (DailyLog.day log) s).
Proof.
  destruct schedule_coherent as (st & Hs & Hc).
  exists (schedule_of st). split; [exact Hs |]. split.
  - apply eld_logs_of_ordered_schedule; [| apply (co_order _ Hc)].
    apply (day_steps_sorted 1), (co_steps _ Hc).
  - intros log Hin.
    apply (proj2 (eld_log_order_spec _ _ Hin)).
    apply events_on_in_start_order, (co_order _ Hc).
Qed.

(** A RESTART moves the schedule two days on: the day after it carries no
    event, and the logs have no entry for that day. *)
Theorem restart_skips_a_day :
  exists s,
    calculate_route_schedule g route_segments initial_hours_used idx
      = Some s /\
    forall e, In e s -> activity_type e = RESTART ->
      (forall x, In x s -> day x <> (day e + 1)%Z) /\
      ~ In (day e + 1)%Z (map DailyLog.day (generate_eld_logs s)).
Proof.
  destruct schedule_coherent as (st & Hs & Hc).
  exists (schedule_of st). split; [exact Hs |].
  intros e He Hr.
  assert (Hgap : forall x, In x (schedule_of st) -> day x <> (day e + 1)%Z).
  { intros x Hx Hd.
    apply (no_event_between _ 1 (co_steps _ Hc) e x He Hx).
    unfold next_day. rewrite Hr. lia. }
  split; [exact Hgap |].
  intro Hin. apply (proj2 (eld_log_days_spec _)) in Hin.
  destruct Hin as (x & Hx & Hd). apply (Hgap x Hx Hd).
Qed.

End ScheduleFacts.

(** ** The first and the last event *)




Section Extends.

Variable g : Q -> Q -> Q -> Q -> option Q.








End Extends.

(** ** Waypoints and trip days *)



Lemma stop_waypoints_spec (e : event) :
  (is_stop e = false -> stop_waypoints e = Returned []) /\
  (is_stop e = true -> has_lon_lat e ->
   exists w, stop_waypoints e = Returned [w] /\
             Waypoint.type w = stop_type e) /\
  (is_stop e = true -> ~ has_lon_lat e -> stop_waypoints e = Raised IndexError).
Proof.
  unfold is_stop, stop_waypoints, stop_type, has_lon_lat.
  destruct (activity_type e); destruct (coord e) as [| lon [| lat r]];
    cbn [length]; repeat split; intros; try discriminate; try lia;
    try reflexivity; try (eexists; split; reflexivity).
Qed.

Lemma schedule_waypoints_spec (s : list event) :
  (Forall has_lon_lat (filter is_stop s) ->
   exists ws, schedule_waypoints s = Returned ws /\
              map Waypoint.type ws = map stop_type (filter is_stop s)) /\
  (~ Forall has_lon_lat (filter is_stop s) ->
   schedule_waypoints s = Raised IndexError).
Proof.
  induction s as [| e s [IH1 IH2]]; cbn [schedule_waypoints filter].
  - split; [intros _; exists []; split; reflexivity |].
    intro H. exfalso. apply H. constructor.
  - destruct (stop_waypoints_spec e) as (Hno & Hyes & Hbad).
    destruct (is_stop e) eqn:E.
    + split.
      * intro H. inversion H as [| ? ? He Hs]; subst.
        destruct (Hyes eq_refl He) as (w & -> & Hw).
        destruct (IH1 Hs) as (ws & -> & Hws).
        exists (w :: ws). cbn [bind app map]. rewrite Hw, Hws.
        split; reflexivity.
      * intro H.
        assert (Hdec : has_lon_lat e \/ ~ has_lon_lat e)
          by (unfold has_lon_lat; lia).
        destruct Hdec as [He | He].
        -- destruct (Hyes eq_refl He) as (w & -> & _). cbn [bind].
           rewrite IH2; [reflexivity |].
           intro Hs. apply H. constructor; assumption.
        -- rewrite (Hbad eq_refl He). reflexivity.
    + rewrite (Hno eq_refl). cbn [bind]. split.
      * intro H. destruct (IH1 H) as (ws & -> & Hws).
        exists ws. split; [reflexivity | exact Hws].
      * intro H. rewrite (IH2 H). reflexivity.
Qed.

(** The waypoints of the schedule: one per FUEL, REST and BREAK event, in
    schedule order, a FUEL typed ["FUEL"], a REST and a BREAK both typed
    ["REST"]; DRIVING, PICKUP, DROPOFF and RESTART events give none.
    The loop raises [IndexError] exactly when one of those stops has a
    coordinate list shorter than two. *)
Theorem schedule_waypoints_are_the_stops (s : list event) :
  (Forall has_lon_lat (filter is_stop s) ->
   exists ws, schedule_waypoints s = Returned ws /\
              map Waypoint.type ws = map stop_type (filter is_stop s)) /\
  (~ Forall has_lon_lat (filter is_stop s) ->
   schedule_waypoints s = Raised IndexError).
Proof. exact (schedule_waypoints_spec s). Qed.

(** ** The routing client *)

Lemma bind_returned {A B : Type} (x : outcome A) (f : A -> outcome B)
    (b : B) :
  bind x f = Returned b -> exists a, x = Returned a /\ f a = Returned b.
Proof.
  destruct x as [a | e]; cbn [bind]; [| discriminate].
  intro H. exists a. split; [reflexivity | exact H].
Qed.

Lemma item_returned {A : Type} (key : string) (v : option A) (a : A) :
  item key v = Returned a -> v = Some a.
Proof. destruct v; cbn [item]; congruence. Qed.

(** [get_route] returns only for a response with status 200, code ["Ok"]
    and a first route that has a distance, a duration and a geometry; the
    leg it returns is that route with the metres turned into miles by the
    factor 0.000621371 and the seconds into hours by 3600, the geometry
    untouched.  Any other response raises. *)
Theorem get_route_returns (fetch : Q * Q -> Q * Q -> OSRM.response)
    (start_coords end_coords : Q * Q) (r : Route.t) :
  get_route fetch start_coords end_coords = Returned r <->
  OSRM.status_code (fetch start_coords end_coords) = 200%Z /\
  OSRM.code (OSRM.json (fetch start_coords end_coords)) = Some "Ok"%string /\
  exists route others distance duration geometry,
    OSRM.routes (OSRM.json (fetch start_coords end_coords))
      = Some (route :: others) /\
    OSRM.distance route = Some distance /\
    OSRM.duration route = Some duration /\
    OSRM.geometry route = Some geometry /\
    r = Route.mk (distance * (621371 # 1000000000)) (duration / 3600)
                 geometry.
Proof.
  unfold get_route.
  set (response := fetch start_coords end_coords).
  split.
  - destruct (OSRM.status_code response =? 200)%Z eqn:Es; cbn [negb];
      [| discriminate].
    apply Z.eqb_eq in Es.
    destruct (OSRM.code (OSRM.json response)) as [c |]; cbn [negb];
      [| discriminate].
    destruct (String.eqb c "Ok") eqn:Ec; cbn [negb]; [| discriminate].
    apply String.eqb_eq in Ec. subst c.
    intro H. apply bind_returned in H. destruct H as (routes & Hr & H).
    apply item_returned in Hr.
    destruct routes as [| route others]; [discriminate |].
    apply bind_returned in H. destruct H as (distance & Hd & H).
    apply bind_returned in H. destruct H as (duration & Hu & H).
    apply bind_returned in H. destruct H as (geometry & Hg & H).
    apply item_returned in Hd, Hu, Hg. injection H as <-.
    split; [exact Es |]. split; [reflexivity |].
    exists route, others, distance, duration, geometry.
    repeat split; assumption.
  - intros (Es & Ec & route & others & distance & duration & geometry
            & Hr & Hd & Hu & Hg & ->).
    rewrite Es, Ec, Hr. cbn [Z.eqb Pos.eqb negb String.eqb Ascii.eqb
                             Bool.eqb andb item bind].
    rewrite Hd, Hu, Hg. reflexivity.
Qed.

(** ** The view *)

Section ViewFacts.

Variable g : Q -> Q -> Q -> Q -> option Q.
Variable fetch : Q * Q -> Q * Q -> OSRM.response.





End ViewFacts.

(** A failure of the routing client is not caught: with the three
    locations and their coordinates in place, [post] raises what the
    first call of [get_route] raises, and what the second call raises
    when the first returned; no answer is built from one leg alone. *)
Theorem post_lets_routing_errors_escape
    (g : Q -> Q -> Q -> Q -> option Q)
    (fetch : Q * Q -> Q * Q -> OSRM.response)
    (hours : option Q) (n1 n2 n3 : option string)
    (clat clng plat plng dlat dlng : Q) (e : exn) :
  (get_route fetch (clng, clat) (plng, plat) = Raised e \/
   (exists r, get_route fetch (clng, clat) (plng, plat) = Returned r) /\
   get_route fetch (plng, plat) (dlng, dlat) = Raised e) ->
  post g fetch
    (Request.mk (Some (Location.mk n1 (Some clat) (Some clng)))
                (Some (Location.mk n2 (Some plat) (Some plng)))
                (Some (Location.mk n3 (Some dlat) (Some dlng)))
                (option_map Some hours))
  = Some (Raised e).
Proof.
  intro H. unfold post.
  destruct n1, n2, n3, hours;
    cbn [Request.current_cycle_hours Request.current_location
         Request.pickup_location Request.dropoff_location
         Location.lat Location.lng Location.name truthy item bind andb
         option_map];
    (destruct H as [H | [[r Hr] H]];
     [rewrite H | rewrite Hr; cbn [bind]; rewrite H]; reflexivity).
Qed.

Lemma post_lets_routing_errors_escape_witness :
  (get_route failing_fetch (-87, 41) (-86, 40) = Raised (OSM_api_error 503) \/
   (exists r, get_route failing_fetch (-87, 41) (-86, 40) = Returned r) /\
   get_route failing_fetch (-86, 40) (-84, 39) = Raised (OSM_api_error 503)) /\
  post no_distance failing_fetch
    (Request.mk (Some (Location.mk None (Some 41) (Some (-87))))
                (Some (Location.mk None (Some 40) (Some (-86))))
                (Some (Location.mk None (Some 39) (Some (-84))))
                (option_map Some (Some 10)))
  = Some (Raised (OSM_api_error 503)).
Proof.
  assert (H : get_route failing_fetch (-87, 41) (-86, 40)
                = Raised (OSM_api_error 503) \/
              (exists r, get_route failing_fetch (-87, 41) (-86, 40)
                         = Returned r) /\
              get_route failing_fetch (-86, 40) (-84, 39)
                = Raised (OSM_api_error 503))
    by (left; reflexivity).
  split; [exact H |].
  exact (post_lets_routing_errors_escape no_distance failing_fetch
           (Some 10) None None None 41 (-87) 40 (-86) 39 (-84)
           (OSM_api_error 503) H).
Defined.

(** ** The schedule does not read the geometry *)

Section Geometry.

Variables g1 g2 : Q -> Q -> Q -> Q -> option Q.

Lemma coords_of_cons (segment : Segment.t) : coords_of segment <> [].
Proof.
  unfold coords_of.
  destruct (Segment.coordinates segment) as [| p [| q r]]; discriminate.
Qed.

Lemma same_leg_speed (a b : Segment.t) :
  same_leg a b -> speed_of a = speed_of b.
Proof. intros [Hd Hh]. unfold speed_of. rewrite Hd, Hh. reflexivity. Qed.

Lemma same_leg_bound (a b : Segment.t) :
  same_leg a b -> loop_bound a = loop_bound b.
Proof. intros [_ Hh]. unfold loop_bound. rewrite Hh. reflexivity. Qed.

Lemma same_legs_fuel (l1 l2 : list Segment.t) :
  Forall2 same_leg l1 l2 -> enough_fuel l1 = enough_fuel l2.
Proof.
  induction 1 as [| a b l1 l2 Hab _ IH]; [reflexivity |].
  cbn [enough_fuel fold_right]. fold (enough_fuel l1) (enough_fuel l2).
  rewrite (same_leg_bound _ _ Hab), IH. reflexivity.
Qed.

Lemma enter_segment_same_leg (a b : Segment.t) (s1 s2 : sim_state) :
  same_leg a b -> same_timing s1 s2 ->
  same_timing (enter_segment a s1) (enter_segment b s2).
Proof.
  intros [_ Hh] H. destruct H.
  split; unfold enter_segment; st_simpl; try assumption.
  split; intro K; exfalso; revert K; apply coords_of_cons.
Qed.

Lemma run_segments_same_legs (fuel : nat) (idx : Z) (l1 l2 : list Segment.t) :
  Forall2 same_leg l1 l2 ->
  forall i s1 s2 r1,
    same_timing s1 s2 ->
    run_segments g1 fuel idx i l1 s1 = Some r1 ->
    exists r2, run_segments g2 fuel idx i l2 s2 = Some r2 /\
               same_timing r1 r2.
Proof.
  induction 1 as [| a b l1 l2 Hab _ IH]; intros i s1 s2 r1 H Hrun.
  - injection Hrun as <-. exists s2. split; [reflexivity | exact H].
  - cbn [run_segments] in *. unfold run_segment in *.
    destruct (while_loop g1 fuel i (speed_of a)
                (pickup i idx (enter_segment a s1))) as [m1 |] eqn:E;
      [| discriminate].
    rewrite <- (same_leg_speed _ _ Hab).
    destruct (while_loop_timing g1 g2 i (speed_of a) fuel _
                (pickup i idx (enter_segment b s2)) m1
                (pickup_timing i idx _ _
                   (enter_segment_same_leg a b _ _ Hab H))
                E) as (m2 & E2 & Hm).
    rewrite E2. apply (IH _ _ _ _ Hm Hrun).
Qed.

Lemma dropoff_same_legs (l1 l2 : list Segment.t) (s1 s2 : sim_state) :
  Forall2 same_leg l1 l2 -> same_timing s1 s2 ->
  same_timing (dropoff l1 s1) (dropoff l2 s2).
Proof.
  intros Hl H. pose proof (Forall2_length Hl) as Hlen.
  unfold dropoff. destruct Hl as [| a b l1 l2 _ _]; [exact H |].
  split; st_simpl; try (destruct H; congruence).
  apply emit_timing; [| exact H]. unfold timing.
  cbn [activity_type location_index duration_hours day start_duty_hours
       end_duty_hours distance_miles cycle_hours_remaining restart_type].
  rewrite Hlen. destruct H; congruence.
Qed.

Lemma simulate_same_legs (l1 l2 : list Segment.t) (initial_hours_used : Q)
    (idx : Z) :
  Forall2 same_leg l1 l2 ->
  exists r1 r2,
    simulate g1 (enough_fuel l1) l1 initial_hours_used idx = Some r1 /\
    simulate g2 (enough_fuel l2) l2 initial_hours_used idx = Some r2 /\
    same_timing r1 r2.
Proof.
  intro Hl.
  destruct (simulate_total g1 l1 initial_hours_used idx) as [r1 Hr1].
  exists r1. rewrite <- (same_legs_fuel _ _ Hl).
  unfold simulate in *.
  destruct (run_segments g1 (enough_fuel l1) idx 0 l1
              (initial_state initial_hours_used)) as [m1 |] eqn:E;
    [| discriminate].
  destruct (run_segments_same_legs _ idx _ _ Hl _ _ _ _
              (same_timing_refl (initial_state initial_hours_used)) E)
    as (m2 & E2 & Hm).
  rewrite E2. injection Hr1 as <-.
  eexists. split; [reflexivity |]. split; [reflexivity |].
  apply dropoff_same_legs; assumption.
Qed.

End Geometry.

(** Two runs on legs with the same distances and durations give the same
    events, coordinates aside, whatever the polylines of the legs and
    whatever the distance function: the geometry decides where an event
    is placed, never which events there are, nor their days, hours or
    miles. *)
Theorem schedule_ignores_geometry (g1 g2 : Q -> Q -> Q -> Q -> option Q)
    (l1 l2 : list Segment.t) (initial_hours_used : Q) (idx : Z) :
  Forall2 same_leg l1 l2 ->
  exists s1 s2,
    calculate_route_schedule g1 l1 initial_hours_used idx = Some s1 /\
    calculate_route_schedule g2 l2 initial_hours_used idx = Some s2 /\
    map timing s1 = map timing s2.
Proof.
  intro Hl.
  destruct (simulate_same_legs g1 g2 l1 l2 initial_hours_used idx Hl)
    as (r1 & r2 & H1 & H2 & Hr).
  exists (schedule_of r1), (schedule_of r2).
  split; [apply (calculate_route_schedule_some g1 _ _ _ _ H1) |].
  split; [apply (calculate_route_schedule_some g2 _ _ _ _ H2) |].
  unfold schedule_of. apply timed_schedule, (same_trace _ _ Hr).
Qed.

Lemma schedule_ignores_geometry_witness :
  Forall2 same_leg scenario_B_legs
    [Segment.mk 600 11 [[0; 0]; [1; 1]; [2; 3]]; Segment.mk 600 11 [[5; 5]]] /\
  exists s1 s2,
    calculate_route_schedule no_distance scenario_B_legs 0 0 = Some s1 /\
    calculate_route_schedule (fun _ _ _ _ => Some 700)
      [Segment.mk 600 11 [[0; 0]; [1; 1]; [2; 3]]; Segment.mk 600 11 [[5; 5]]]
      0 0 = Some s2 /\
    map timing s1 = map timing s2.
Proof.
  assert (H : Forall2 same_leg scenario_B_legs
                [Segment.mk 600 11 [[0; 0]; [1; 1]; [2; 3]];
                 Segment.mk 600 11 [[5; 5]]])
    by (repeat constructor).
  split; [exact H |].
  exact (schedule_ignores_geometry no_distance (fun _ _ _ _ => Some 700)
           _ _ 0 0%Z H).
Defined.

(** ** Fuel stops *)




Section Fuel.

Variable g : Q -> Q -> Q -> Q -> option Q.

Ltac appended :=
  try (unfold schedule_of; st_simpl; apply schedule_of_emit).







End Fuel.


(** ** Closed instances *)



